(** * LatentSync batch inference: a shallow embedding of [batch_inference.py]

    The script discovers [*.mp4] and [*.wav] files, pairs every audio file
    with a randomly drawn video and shells out once per pair.  Everything the
    script takes from its environment (the file system, the random number
    source, the clocks and the child process) is gathered in a [World]
    record, so that [main] becomes a function from a world and the parsed
    arguments to the trace of what the script printed and launched. *)

From Stdlib Require Import ZArith QArith Ascii.
From stdpp Require Import base list strings gmap sets sorting pretty.

Close Scope Q_scope.
Local Open Scope Z_scope.
Local Open Scope nat_scope.

(** ** Strings and paths *)

Module Str.

(** [s.rfind(c)]: index of the last occurrence, [None] for Python's -1. *)
Fixpoint rfind (c : ascii) (s : string) : option nat :=
  match s with
  | EmptyString => None
  | String a r =>
      match rfind c r with
      | Some i => Some (S i)
      | None => if decide (a = c) then Some 0 else None
      end
  end.

(** [s[:i]] and [s[i:]]. *)
Fixpoint take (i : nat) (s : string) : string :=
  match i, s with
  | S j, String a r => String a (take j r)
  | _, _ => EmptyString
  end.

Fixpoint drop (i : nat) (s : string) : string :=
  match i, s with
  | S j, String _ r => drop j r
  | _, _ => s
  end.

(** [s.endswith(suf)] *)
Definition endswith (s suf : string) : bool :=
  bool_decide (String.length suf ≤ String.length s) &&
  bool_decide (drop (String.length s - String.length suf) s = suf).

(** [sep.join(l)] *)
Fixpoint join (sep : string) (l : list string) : string :=
  match l with
  | [] => ""
  | [x] => x
  | x :: r => x +:+ sep +:+ join sep r
  end.

End Str.

(** [pathlib]: paths are kept as the strings [str(path)] gives, already in
    pathlib's normal form (no trailing separator). *)
Module Path.

(** [str(p / name)] *)
Definition joinpath (p name : string) : string := p +:+ "/" +:+ name.

(** [Path(p).name]: the final component. *)
Definition name (p : string) : string :=
  match Str.rfind "/"%char p with
  | Some i => Str.drop (S i) p
  | None => p
  end.

(** [Path(p).stem]: the final component without its last suffix.  A dot
    in first or last position does not start a suffix. *)
Definition stem (p : string) : string :=
  let n := name p in
  match Str.rfind "."%char n with
  | Some i =>
      if bool_decide (0 < i) && bool_decide (i < String.length n - 1)
      then Str.take i n else n
  | None => n
  end.

(** [fnmatch] of a name against ["*" + ext], as [Path.glob] applies it to
    the entries of a directory. *)
Definition matches (ext name : string) : bool := Str.endswith name ext.

End Path.

(** ** The environment of a run *)

Inductive node :=
  | RegularFile
  | Directory (entries : list string).

(** [None]: no such path. *)
Definition filesystem := string → option node.

(** What [datetime.now()] returns, down to the second. *)
Record datetime := {
  year : nat; month : nat; day : nat;
  hour : nat; minute : nat; second : nat
}.

(** How [subprocess.run] ends: the child ran and exited with a status and
    its captured standard error, or it could not be started at all. *)
Inductive completion :=
  | Exited (returncode : Z) (stderr : string)
  | NotLaunched.

(** The random numbers are a tape of raw draws; [random_seed s] is the tape
    [random.seed(s)] installs, [entropy] the one the interpreter starts with.
    Clocks and the child process answer by the number of the call. *)
Record World := {
  fs : filesystem;
  entropy : list N;
  random_seed_tape : Z → list N;
  time_reading : nat → Q;
  now_reading : nat → datetime;
  child : nat → list string → completion
}.

Inductive exn :=
  | CalledProcessError (returncode : Z) (stderr : string)
  | OSError
  | ValueError
  | IndexError
  | ZeroDivisionError.

(** The resolved parameters of one call of the inference tool. *)
Record JobSpec := {
  job_video_path : string;
  job_audio_path : string;
  job_output_path : string;
  job_config_path : string;
  job_ckpt_path : string;
  job_inference_steps : Z;
  job_guidance_scale : string;
  job_seed : Z;
  job_enable_deepcache : bool
}.

(** One constructor per [print] of the script, with the values the line
    interpolates; numbers that Python holds as floats are rationals here and
    the rounding of the format is left out. *)
Inductive line :=
  | PScanning
  | PFoundVideos (names : list string)
  | PFoundAudios (names : list string)
  | PNoVideo
  | PNoAudio
  | POutputDir (dir : string)
  | PTotal (total : Z)
  | PStrategy
  | PWarnAllUsed
  | PWarnNoUnique
  | PProcessing (count total : nat) (audio video : string)
  | PRunning (video audio output : string) (seed : Z) (cmd : string)
  | PGenerated (output : string)
  | PError (output stderr : string)
  | PProgress (count total : nat) (percent : Q)
  | PCounts (successful failed : nat)
  | PElapsed (minutes : Q)
  | PRemaining (minutes : Q)
  | PBanner
  | PProcessed (count : nat)
  | PSuccessful (n : nat)
  | PFailed (n : nat)
  | PSuccessRate (percent : Q)
  | PTotalTime (minutes : Q)
  | PAverage (seconds : Q)
  | PRule.

Inductive effect :=
  | Print (l : line)
  | Mkdir (dir : string)
  | Exec (job : JobSpec).

(** ** A state and exception monad for the script *)

Record Machine := {
  rng : list N;
  trace : list effect;
  time_calls : nat;
  now_calls : nat;
  exec_calls : nat
}.

Definition M (A : Type) : Type := Machine → (exn + A) * Machine.

Definition ret {A} (a : A) : M A := λ σ, (inr a, σ).
Definition raise {A} (e : exn) : M A := λ σ, (inl e, σ).
Definition bind {A B} (m : M A) (k : A → M B) : M B := λ σ,
  match m σ with
  | (inr a, σ') => k a σ'
  | (inl e, σ') => (inl e, σ')
  end.

(** [try: m except ...: h]; the handler says which exceptions it takes. *)
Definition try_except {A} (m : M A) (h : exn → option (M A)) : M A := λ σ,
  match m σ with
  | (inl e, σ') => match h e with Some k => k σ' | None => (inl e, σ') end
  | r => r
  end.

Notation "'let*' x ':=' m 'in' k" := (bind m (λ x, k))
  (at level 10, x name, m at level 100, k at level 200).
Notation "m '>>' k" := (bind m (λ _, k))
  (at level 100, k at level 200, right associativity).

Definition emit (e : effect) : M unit := λ σ,
  (inr tt, {| rng := rng σ; trace := trace σ ++ [e]; time_calls := time_calls σ;
              now_calls := now_calls σ; exec_calls := exec_calls σ |}).
Definition print (l : line) : M unit := emit (Print l).

Definition set_rng (g : list N) : M unit := λ σ,
  (inr tt, {| rng := g; trace := trace σ; time_calls := time_calls σ;
              now_calls := now_calls σ; exec_calls := exec_calls σ |}).

(** [for x in l: s = body x s] *)
Fixpoint for_each {A St} (l : list A) (body : A → St → M St) (s : St) : M St :=
  match l with
  | [] => ret s
  | x :: r => let* s' := body x s in for_each r body s'
  end.

(** ** The [random] module

    The generator of the standard library is taken by what it does to the
    tape: [randbelow] consumes one raw draw, [choice] and [randint] make one
    call of it, and [sample] one call per pick, along its pool algorithm.
    For populations too large for the pool CPython selects by redrawing on
    collisions, which takes more draws; that branch is not modelled, and
    what is stated below about a run that samples uses only that the picks
    are made without replacement, that there are as many as asked for, and
    that the tape is read forward. *)

Module random.

(** A number below [n]: the next raw draw of the tape, reduced.  A tape
    that has run out keeps answering 0. *)
Definition randbelow (n : N) : M N := λ σ,
  (inr (hd 0%N (rng σ) `mod` n)%N,
   {| rng := tail (rng σ); trace := trace σ; time_calls := time_calls σ;
      now_calls := now_calls σ; exec_calls := exec_calls σ |}).

(** [random.choice(seq)] *)
Definition choice (seq : list string) : M string :=
  if decide (seq = []) then raise IndexError
  else let* i := randbelow (N.of_nat (length seq)) in ret (seq !!! N.to_nat i).

(** [random.randint(a, b)] *)
Definition randint (a b : Z) : M Z :=
  let* i := randbelow (Z.to_N (b - a + 1)) in ret (a + Z.of_N i)%Z.

(** The selection loop of [random.sample] on a pool that it consumes:
    the [i]-th pick is replaced by the last live element of the pool. *)
Fixpoint sample_loop (n i k : nat) (pool : list string) : M (list string) :=
  match k with
  | 0 => ret []
  | S k' =>
      let* j := randbelow (N.of_nat (n - i)) in
      let x := pool !!! N.to_nat j in
      let* r := sample_loop n (S i) k' (<[N.to_nat j := pool !!! (n - i - 1)]> pool) in
      ret (x :: r)
  end.

(** [random.sample(population, k)] *)
Definition sample (population : list string) (k : Z) : M (list string) :=
  let n := length population in
  if bool_decide (0 ≤ k ≤ Z.of_nat n)%Z
  then sample_loop n 0 (Z.to_nat k) population
  else raise ValueError.

End random.

(** ** Clocks, formatting and the child process *)

(** [time.time()] *)
Definition time_time (w : World) : M Q := λ σ,
  (inr (time_reading w (time_calls σ)),
   {| rng := rng σ; trace := trace σ; time_calls := S (time_calls σ);
      now_calls := now_calls σ; exec_calls := exec_calls σ |}).

(** [datetime.now()] *)
Definition datetime_now (w : World) : M datetime := λ σ,
  (inr (now_reading w (now_calls σ)),
   {| rng := rng σ; trace := trace σ; time_calls := time_calls σ;
      now_calls := S (now_calls σ); exec_calls := exec_calls σ |}).

(** The decimal digits of [n], right-aligned in [width] columns and padded
    with zeros, as [%Y], [%m], [%d], [%H], [%M] and [%S] print them. *)
Fixpoint zero_padded (width n : nat) (acc : string) : string :=
  match width with
  | 0 => acc
  | S w => zero_padded w (n / 10) (String (pretty_N_char (N.of_nat (n mod 10))) acc)
  end.

(** [d.strftime("%Y%m%d_%H%M%S")] *)
Definition strftime (d : datetime) : string :=
  zero_padded 4 (year d) (zero_padded 2 (month d) (zero_padded 2 (day d)
    (String "_" (zero_padded 2 (hour d) (zero_padded 2 (minute d)
      (zero_padded 2 (second d) "")))))).

(** [str(n)] for an integer *)
Definition str (n : Z) : string := pretty n.

(** [a / b] on numbers *)
Definition truediv (a b : Q) : M Q :=
  if Qeq_bool b 0 then raise ZeroDivisionError else ret (a / b)%Q.

Definition Qnat (n : nat) : Q := inject_Z (Z.of_nat n).

(** The argument vector [run_inference] builds. *)
Definition command (j : JobSpec) : list string :=
  [ "python"; "-m"; "scripts.inference";
    "--unet_config_path"; job_config_path j;
    "--inference_ckpt_path"; job_ckpt_path j;
    "--video_path"; job_video_path j;
    "--audio_path"; job_audio_path j;
    "--video_out_path"; job_output_path j;
    "--inference_steps"; str (job_inference_steps j);
    "--guidance_scale"; job_guidance_scale j;
    "--seed"; str (job_seed j) ]
  ++ (if job_enable_deepcache j then ["--enable_deepcache"] else []).

(** [subprocess.run(cmd, check=True, capture_output=True, text=True)]; what
    the child wrote is taken to decode as text. *)
Definition subprocess_run (w : World) (j : JobSpec) : M unit := λ σ,
  let σ' := {| rng := rng σ; trace := trace σ ++ [Exec j]; time_calls := time_calls σ;
               now_calls := now_calls σ; exec_calls := S (exec_calls σ) |} in
  match child w (exec_calls σ) (command j) with
  | NotLaunched => (inl OSError, σ')
  | Exited rc err =>
      if decide (rc = 0%Z) then (inr tt, σ') else (inl (CalledProcessError rc err), σ')
  end.

(** ** The parsed command line *)

Record Args := {
  video_dir : string;
  audio_dir : string;
  output_dir : string;
  config_path : string;
  ckpt_path : string;
  inference_steps : Z;
  guidance_scale : string;
  enable_deepcache : bool;
  max_combinations : option Z;
  random_seed : option Z;
  allow_repeat_videos : bool
}.

(** What the user typed: the value given to each option that takes one, as
    the [type] of the option converts it (the guidance scale by the [str] of
    its float), and for the two switches whether they occur. *)
Record CommandLine := {
  cl_video_dir : option string;
  cl_audio_dir : option string;
  cl_output_dir : option string;
  cl_config_path : option string;
  cl_ckpt_path : option string;
  cl_inference_steps : option Z;
  cl_guidance_scale : option string;
  cl_enable_deepcache : bool;
  cl_max_combinations : option Z;
  cl_random_seed : option Z;
  cl_allow_repeat_videos : bool
}.

(** argparse's [action="store_true"]: the switch stores [True] when it
    occurs and leaves the default otherwise. *)
Definition store_true (default occurs : bool) : bool :=
  if occurs then true else default.

Definition parse_args (cl : CommandLine) : Args := {|
  video_dir := default "data/Video" (cl_video_dir cl);
  audio_dir := default "data/Audio/spk_ganyu" (cl_audio_dir cl);
  output_dir := default "output/lipsync" (cl_output_dir cl);
  config_path := default "configs/unet/stage2_512.yaml" (cl_config_path cl);
  ckpt_path := default "checkpoints/latentsync_unet.pt" (cl_ckpt_path cl);
  inference_steps := default 20%Z (cl_inference_steps cl);
  guidance_scale := default "1.5" (cl_guidance_scale cl);
  enable_deepcache := store_true true (cl_enable_deepcache cl);
  max_combinations := cl_max_combinations cl;
  random_seed := cl_random_seed cl;
  allow_repeat_videos := store_true true (cl_allow_repeat_videos cl)
|}.

(** Truth value of an optional integer: [None] and [0] are false. *)
Definition truthy (o : option Z) : bool :=
  match o with
  | Some c => negb (c =? 0)%Z
  | None => false
  end.

(** ** The script *)

(** The variables the loop of [main] updates. *)
Record Locals := {
  used_videos : gset string;
  combination_count : nat;
  successful : nat;
  failed : nat
}.

Section script.
Context (w : World).

(** [Path(p).exists()] *)
Definition path_exists (p : string) : bool := bool_decide (is_Some (fs w p)).

(** [str(file) for file in Path(dir).glob("*" + ext)], in the order the
    directory is listed.  A path that is no directory yields nothing. *)
Definition glob (dir ext : string) : list string :=
  match fs w dir with
  | Some (Directory entries) =>
      Path.joinpath dir <$> filter (λ n, Is_true (Path.matches ext n)) entries
  | _ => []
  end.

(** [sorted] on a list of strings. *)
Definition sorted (l : list string) : list string := merge_sort String.le l.

Definition get_video_files (video_dir : string) : list string :=
  let video_files := if path_exists video_dir then glob video_dir ".mp4" else [] in
  sorted video_files.

Definition get_audio_files (audio_dir : string) : list string :=
  let audio_files := if path_exists audio_dir then glob audio_dir ".wav" else [] in
  sorted audio_files.

(** [mkdir(parents=True, exist_ok=True)] is recorded and taken to succeed. *)
Definition create_output_dir (output_dir : string) : M string :=
  emit (Mkdir output_dir) >> ret output_dir.

Definition run_inference (video_path audio_path output_path config_path ckpt_path : string)
    (inference_steps : Z) (guidance_scale : string) (seed : option Z)
    (enable_deepcache : bool) : M bool :=
  let* seed := match seed with
               | None => random.randint 1 999999
               | Some s => ret s
               end in
  let job := {| job_video_path := video_path; job_audio_path := audio_path;
                job_output_path := output_path; job_config_path := config_path;
                job_ckpt_path := ckpt_path; job_inference_steps := inference_steps;
                job_guidance_scale := guidance_scale; job_seed := seed;
                job_enable_deepcache := enable_deepcache |} in
  print (PRunning (Path.name video_path) (Path.name audio_path)
           (Path.name output_path) seed (Str.join " " (command job))) >>
  try_except
    (subprocess_run w job >>
     print (PGenerated (Path.name output_path)) >>
     ret true)
    (λ e, match e with
          | CalledProcessError _ stderr =>
              Some (print (PError (Path.name output_path) stderr) >> ret false)
          | _ => None
          end).

(** Lines 171 to 184: the video for the next audio file. *)
Definition select_video (args : Args) (video_files : list string)
    (used : gset string) : M (string * gset string) :=
  let* used :=
    if negb (allow_repeat_videos args) && bool_decide (length video_files ≤ size used)
    then print PWarnAllUsed >> ret (∅ : gset string)
    else ret used in
  if allow_repeat_videos args then
    let* sampled_video := random.choice video_files in
    ret (sampled_video, used)
  else
    let available_videos := filter (λ v, v ∉ used) video_files in
    let* cleared :=
      if decide (available_videos = [])
      then print PWarnNoUnique >> ret (∅ : gset string, video_files)
      else ret (used, available_videos) in
    let* sampled_video := random.choice cleared.2 in
    ret (sampled_video, {[sampled_video]} ∪ cleared.1).

(** The body of the loop over [audio_files_to_process]. *)
Definition process (args : Args) (video_files : list string) (output_dir : string)
    (total_combinations : nat) (start_time : Q)
    (audio_file : string) (l : Locals) : M Locals :=
  let* sel := select_video args video_files (used_videos l) in
  let sampled_video := sel.1 in
  let combination_count := S (combination_count l) in
  let video_name := Path.stem sampled_video in
  let audio_name := Path.stem audio_file in
  let* now := datetime_now w in
  let timestamp := strftime now in
  let output_filename := video_name +:+ "_" +:+ audio_name +:+ "_" +:+ timestamp +:+ ".mp4" in
  let output_path := Path.joinpath output_dir output_filename in
  print (PProcessing combination_count total_combinations
           (Path.name audio_file) (Path.name sampled_video)) >>
  let* success :=
    run_inference sampled_video audio_file output_path (config_path args)
      (ckpt_path args) (inference_steps args) (guidance_scale args)
      (random_seed args) (enable_deepcache args) in
  let successful := if success then S (successful l) else successful l in
  let failed := if success then failed l else S (failed l) in
  let* t := time_time w in
  let elapsed_time := (t - start_time)%Q in
  let* avg_time_per_combination := truediv elapsed_time (Qnat combination_count) in
  let remaining_combinations := (Z.of_nat total_combinations - Z.of_nat combination_count)%Z in
  let estimated_remaining_time :=
    (inject_Z remaining_combinations * avg_time_per_combination)%Q in
  let* fraction := truediv (Qnat combination_count) (Qnat total_combinations) in
  print (PProgress combination_count total_combinations (fraction * 100)%Q) >>
  print (PCounts successful failed) >>
  print (PElapsed (elapsed_time / 60)%Q) >>
  print (PRemaining (estimated_remaining_time / 60)%Q) >>
  ret {| used_videos := sel.2; combination_count := combination_count;
         successful := successful; failed := failed |}.

(** Lines 229 to 241: the final summary. *)
Definition final_summary (output_dir : string) (start_time : Q) (l : Locals) : M unit :=
  let* t := time_time w in
  let total_time := (t - start_time)%Q in
  print PBanner >>
  print (PProcessed (combination_count l)) >>
  print (PSuccessful (successful l)) >>
  print (PFailed (failed l)) >>
  let* rate := truediv (Qnat (successful l)) (Qnat (combination_count l)) in
  print (PSuccessRate (rate * 100)%Q) >>
  print (PTotalTime (total_time / 60)%Q) >>
  let* average := truediv total_time (Qnat (combination_count l)) in
  print (PAverage average) >>
  print (POutputDir output_dir) >>
  print PRule.

(** [main] after [parse_args].  [torch.manual_seed] seeds a generator that
    the script never reads and is taken to accept the seed. *)
Definition run (args : Args) : M unit :=
  (match random_seed args with
   | Some s => set_rng (random_seed_tape w s)
   | None => ret tt
   end) >>
  print PScanning >>
  let video_files := get_video_files (video_dir args) in
  let audio_files := get_audio_files (audio_dir args) in
  print (PFoundVideos (Path.name <$> video_files)) >>
  print (PFoundAudios (Path.name <$> audio_files)) >>
  if decide (video_files = []) then print PNoVideo
  else if decide (audio_files = []) then print PNoAudio
  else
    let* output_dir := create_output_dir (output_dir args) in
    print (POutputDir output_dir) >>
    let total_combinations := Z.of_nat (length audio_files) in
    let total_combinations :=
      if truthy (max_combinations args)
      then Z.min total_combinations (default 0%Z (max_combinations args))
      else total_combinations in
    print (PTotal total_combinations) >>
    print PStrategy >>
    let* start_time := time_time w in
    let* audio_files_to_process :=
      if truthy (max_combinations args) &&
         bool_decide (default 0 (max_combinations args) < Z.of_nat (length audio_files))%Z
      then random.sample audio_files (default 0%Z (max_combinations args))
      else ret audio_files in
    let total_combinations := length audio_files_to_process in
    let* l := for_each audio_files_to_process
                (process args video_files output_dir total_combinations start_time)
                {| used_videos := ∅; combination_count := 0;
                   successful := 0; failed := 0 |} in
    final_summary output_dir start_time l.

Definition boot : Machine :=
  {| rng := entropy w; trace := []; time_calls := 0; now_calls := 0; exec_calls := 0 |}.

Definition main (cl : CommandLine) : (exn + unit) * Machine :=
  run (parse_args cl) boot.

End script.

(** ** What a run did *)

Definition is_exec (e : effect) : option JobSpec :=
  match e with
  | Exec j => Some j
  | _ => None
  end.

(** The jobs handed to the inference tool, in order. *)
Definition jobs (t : list effect) : list JobSpec := omap is_exec t.

Definition printed (t : list effect) : list line :=
  omap (λ e, match e with Print l => Some l | _ => None end) t.

(** [min(len(audio_files), max_combinations or ∞)] *)
Definition job_bound (audio_files : list string) (max_combinations : option Z) : Z :=
  if truthy max_combinations
  then Z.min (Z.of_nat (length audio_files)) (default 0%Z max_combinations)
  else Z.of_nat (length audio_files).

(** The selections of a run, cut where [used_videos] is cleared: both
    places that clear it print a warning first.  The first component holds
    the cycles that were closed, the second the one still open. *)
Definition cycle_step (c : list (list string) * list string) (e : effect)
    : list (list string) * list string :=
  match e with
  | Print PWarnAllUsed | Print PWarnNoUnique => (c.1 ++ [c.2], [])
  | Exec j => (c.1, c.2 ++ [job_video_path j])
  | _ => c
  end.

Definition cycles (t : list effect) : list (list string) * list string :=
  fold_left cycle_step t ([], []).

(** What holds of the cycles of a trace under the no-repeat policy: no
    cycle holds a video twice, the open one holds videos of the list, and
    the closed ones are as long as a list without duplicates. *)
Definition tidy (video_files : list string) (c : list (list string) * list string) : Prop :=
  NoDup c.2 ∧ (∀ v, v ∈ c.2 → v ∈ video_files)
  ∧ Forall NoDup c.1
  ∧ (NoDup video_files → Forall (λ cyc, length cyc = length video_files) c.1).


(** ** One iteration, in closed form

    The definitions below restate what one pass through the loop does as
    plain functions of the raw draws; [select_video_pick] and
    [process_unfold] prove them equal to the script. *)

(** The warnings printed, the video chosen and the new [used_videos] when
    the next raw draw is [x]. *)
Definition pick (allow : bool) (video_files : list string) (used : gset string)
    (x : N) : list line * string * gset string :=
  let full := negb allow && bool_decide (length video_files ≤ size used) in
  let used1 : gset string := if full then ∅ else used in
  if allow then ([], video_files !!! N.to_nat (x `mod` N.of_nat (length video_files))%N, used1)
  else
    let available := filter (λ v, v ∉ used1) video_files in
    let none := bool_decide (available = []) in
    let pool := if none then video_files else available in
    let v := pool !!! N.to_nat (x `mod` N.of_nat (length pool))%N in
    ((if full then [PWarnAllUsed] else []) ++ (if none then [PWarnNoUnique] else []),
     v, {[v]} ∪ (if none then ∅ else used1)).

(** The seed of a job and the tape left, from the tape after the choice. *)
Definition resolve_seed (seed : option Z) (g : list N) : Z * list N :=
  match seed with
  | Some s => (s, g)
  | None => ((1 + Z.of_N (hd 0%N g `mod` 999999)%N)%Z, tail g)
  end.

Definition output_filename (w : World) (k : nat) (video audio : string) : string :=
  Path.stem video +:+ "_" +:+ Path.stem audio +:+ "_"
    +:+ strftime (now_reading w k) +:+ ".mp4".

(** The job of the iteration that makes the [k]-th call of [datetime.now()]. *)
Definition job_at (w : World) (args : Args) (output_dir : string) (k : nat)
    (video audio : string) (seed : Z) : JobSpec :=
  {| job_video_path := video; job_audio_path := audio;
     job_output_path := Path.joinpath output_dir (output_filename w k video audio);
     job_config_path := config_path args; job_ckpt_path := ckpt_path args;
     job_inference_steps := inference_steps args;
     job_guidance_scale := guidance_scale args; job_seed := seed;
     job_enable_deepcache := enable_deepcache args |}.

(** What the iteration prints and launches up to the call of the tool. *)
Definition announce (total count : nat) (j : JobSpec) : list effect :=
  [ Print (PProcessing count total (Path.name (job_audio_path j))
             (Path.name (job_video_path j)));
    Print (PRunning (Path.name (job_video_path j)) (Path.name (job_audio_path j))
             (Path.name (job_output_path j)) (job_seed j) (Str.join " " (command j)));
    Exec j ].

(** What it prints once the tool has exited with status [rc]. *)
Definition report (total count successful failed : nat) (elapsed : Q)
    (j : JobSpec) (rc : Z) (stderr : string) : list effect :=
  [ Print (if decide (rc = 0%Z) then PGenerated (Path.name (job_output_path j))
           else PError (Path.name (job_output_path j)) stderr);
    Print (PProgress count total (Qnat count / Qnat total * 100)%Q);
    Print (PCounts successful failed);
    Print (PElapsed (elapsed / 60)%Q);
    Print (PRemaining (inject_Z (Z.of_nat total - Z.of_nat count)
                       * (elapsed / Qnat count) / 60)%Q) ].

(** The picks of [random.sample] as a function of the tape. *)
Fixpoint sample_picks (n i k : nat) (pool : list string) (g : list N) : list string :=
  match k with
  | 0 => []
  | S k' =>
      let j := N.to_nat (hd 0%N g `mod` N.of_nat (n - i))%N in
      pool !!! j :: sample_picks n (S i) k' (<[j := pool !!! (n - i - 1)]> pool) (tail g)
  end.

(** Whether lines 161 and 162 sample the audio files. *)
Definition samples (args : Args) (audio_files : list string) : bool :=
  truthy (max_combinations args) &&
  bool_decide (default 0 (max_combinations args) < Z.of_nat (length audio_files))%Z.

(** [audio_files_to_process] and the tape left, for a cap that is not negative. *)
Definition to_process (args : Args) (audio_files : list string) (g : list N)
    : list string * list N :=
  if samples args audio_files then
    let k := Z.to_nat (default 0%Z (max_combinations args)) in
    (sample_picks (length audio_files) 0 k audio_files g, drop k g)
  else (audio_files, g).

(** What a run does before it reads the clock for [start_time]. *)
Definition preamble (args : Args) (video_files audio_files : list string) : list effect :=
  [ Print PScanning;
    Print (PFoundVideos (Path.name <$> video_files));
    Print (PFoundAudios (Path.name <$> audio_files));
    Mkdir (output_dir args);
    Print (POutputDir (output_dir args));
    Print (PTotal (job_bound audio_files (max_combinations args)));
    Print PStrategy ].

(** The tape a run starts from. *)
Definition first_tape (w : World) (args : Args) : list N :=
  match random_seed args with
  | Some s => random_seed_tape w s
  | None => entropy w
  end.

Definition negative (o : option Z) : bool :=
  match o with
  | Some c => bool_decide (c < 0)%Z
  | None => false
  end.

Definition fresh : Locals :=
  {| used_videos := ∅; combination_count := 0; successful := 0; failed := 0 |}.

(** The job of the next pass, the machine once the tool has been called,
    and the variables and the machine at the end of a pass whose tool exited
    with status [rc]. *)
Section pass.
Context (w : World) (args : Args) (video_files : list string) (output_dir : string)
  (total : nat) (start : Q) (audio : string) (l : Locals) (σ : Machine).

Definition next_pick : list line * string * gset string :=
  pick (allow_repeat_videos args) video_files (used_videos l) (hd 0%N (rng σ)).

Definition next_seed : Z * list N :=
  resolve_seed (random_seed args) (tail (rng σ)).

Definition next_job : JobSpec :=
  job_at w args output_dir (now_calls σ) next_pick.1.2 audio next_seed.1.

Definition after_launch : Machine :=
  {| rng := next_seed.2;
     trace := trace σ ++ (Print <$> next_pick.1.1)
                ++ announce total (S (combination_count l)) next_job;
     time_calls := time_calls σ; now_calls := S (now_calls σ);
     exec_calls := S (exec_calls σ) |}.

Definition after_exit_locals (rc : Z) : Locals :=
  {| used_videos := next_pick.2; combination_count := S (combination_count l);
     successful := if bool_decide (rc = 0%Z) then S (successful l) else successful l;
     failed := if bool_decide (rc = 0%Z) then failed l else S (failed l) |}.

Definition after_exit (rc : Z) (err : string) : Machine :=
  {| rng := next_seed.2;
     trace := trace after_launch
                ++ report total (S (combination_count l))
                     (successful (after_exit_locals rc)) (failed (after_exit_locals rc))
                     (time_reading w (time_calls σ) - start)%Q next_job rc err;
     time_calls := S (time_calls σ); now_calls := S (now_calls σ);
     exec_calls := S (exec_calls σ) |}.

End pass.

(** The lines of the final summary when the clock reads [t]. *)
Definition summary (output_dir : string) (start t : Q) (l : Locals) : list effect :=
  [ Print PBanner;
    Print (PProcessed (combination_count l));
    Print (PSuccessful (successful l));
    Print (PFailed (failed l));
    Print (PSuccessRate (Qnat (successful l) / Qnat (combination_count l) * 100)%Q);
    Print (PTotalTime ((t - start) / 60)%Q);
    Print (PAverage ((t - start) / Qnat (combination_count l))%Q);
    Print (POutputDir output_dir);
    Print PRule ].

(** The two messages of a run that found no input. *)
Definition no_input (e : effect) : bool :=
  match e with
  | Print PNoVideo | Print PNoAudio => true
  | _ => false
  end.

(** The jobs of the passes over [audios] as a function of the tape, for
    passes that start with [used] and with [k] earlier readings of the
    date. *)
Fixpoint plan (w : World) (args : Args) (video_files : list string)
    (output_dir : string) (audios : list string) (used : gset string)
    (g : list N) (k : nat) : list JobSpec :=
  match audios with
  | [] => []
  | audio :: rest =>
      let p := pick (allow_repeat_videos args) video_files used (hd 0%N g) in
      let sd := resolve_seed (random_seed args) (tail g) in
      job_at w args output_dir k p.1.2 audio sd.1
        :: plan w args video_files output_dir rest p.2 sd.2 (S k)
  end.

(** The jobs a run launches when every call of the tool can be started. *)
Definition planned (w : World) (args : Args) : list JobSpec :=
  let video_files := get_video_files w (video_dir args) in
  let audio_files := get_audio_files w (audio_dir args) in
  if decide (video_files = [] ∨ audio_files = []) then []
  else if negative (max_combinations args) then []
  else
    let tp := to_process args audio_files (first_tape w args) in
    plan w args video_files (output_dir args) tp.1 ∅ tp.2 0.


(** ** Sample environments *)

Definition plain : CommandLine :=
  {| cl_video_dir := None; cl_audio_dir := None; cl_output_dir := None;
     cl_config_path := None; cl_ckpt_path := None; cl_inference_steps := None;
     cl_guidance_scale := None; cl_enable_deepcache := false;
     cl_max_combinations := None; cl_random_seed := None;
     cl_allow_repeat_videos := false |}.

Definition with_cap (c : Z) : CommandLine :=
  {| cl_video_dir := None; cl_audio_dir := None; cl_output_dir := None;
     cl_config_path := None; cl_ckpt_path := None; cl_inference_steps := None;
     cl_guidance_scale := None; cl_enable_deepcache := false;
     cl_max_combinations := Some c; cl_random_seed := None;
     cl_allow_repeat_videos := false |}.


Definition studio : filesystem := λ p,
  if decide (p = "data/Video") then
    Some (Directory ["b.mp4"; "notes.txt"; "a.mp4"; "clip.MP4"])
  else if decide (p = "data/Audio/spk_ganyu") then
    Some (Directory ["y.wav"; "x.wav"; "z.wav"; "x.mp3"])
  else if decide (p = "README") then Some RegularFile
  else None.

(** Audio files but no video. *)
Definition silent_films : filesystem := λ p,
  if decide (p = "data/Audio/spk_ganyu") then Some (Directory ["x.wav"]) else None.

Definition noon (s : nat) : datetime :=
  {| year := 2024; month := 5; day := 17; hour := 12; minute := 0; second := s |}.

(** A tool that fails on its first call and succeeds afterwards. *)
Definition calm : World :=
  {| fs := studio; entropy := [4; 7; 5; 1; 9; 2]%N;
     random_seed_tape := λ s, [Z.to_N s; 3; 2; 8]%N;
     time_reading := λ n, Qnat (10 * n); now_reading := λ n, noon n;
     child := λ n _, if decide (n = 0) then Exited 1 "CUDA out of memory" else Exited 0 "" |}.


Definition empty_handed : World :=
  {| fs := silent_films; entropy := []; random_seed_tape := λ _, [];
     time_reading := λ _, 0%Q; now_reading := λ _, noon 0;
     child := λ _ _, Exited 0 "" |}.

(** No [python] on the path: the second call of the tool cannot start. *)
Definition broken : World :=
  {| fs := studio; entropy := [4; 7; 5; 1; 9; 2]%N;
     random_seed_tape := λ s, [Z.to_N s; 3; 2; 8]%N;
     time_reading := λ n, Qnat (10 * n); now_reading := λ n, noon n;
     child := λ n _, if decide (n = 1) then NotLaunched else Exited 2 "no such module" |}.

(** The default arguments with the no-repeat policy, which no command
    line gives. *)
Definition strict : Args :=
  {| video_dir := "data/Video"; audio_dir := "data/Audio/spk_ganyu";
     output_dir := "output/lipsync"; config_path := "configs/unet/stage2_512.yaml";
     ckpt_path := "checkpoints/latentsync_unet.pt"; inference_steps := 20;
     guidance_scale := "1.5"; enable_deepcache := true; max_combinations := None;
     random_seed := None; allow_repeat_videos := false |}.

(** Two videos and two audio files whose stems join to the same name, a
    tool that fails at once and a clock that has not moved on. *)
Definition lookalikes : filesystem := λ p,
  if decide (p = "data/Video") then Some (Directory ["a.mp4"; "a_b.mp4"])
  else if decide (p = "data/Audio/spk_ganyu") then Some (Directory ["b_c.wav"; "c.wav"])
  else None.

Definition hasty : World :=
  {| fs := lookalikes; entropy := [0; 41; 1; 42]%N; random_seed_tape := λ _, [];
     time_reading := λ _, 0%Q; now_reading := λ _, noon 0;
     child := λ _ _, Exited 1 "No module named scripts" |}.

(** ** Further definitions used by the properties below *)

(** The studio as another listing call returns it: the same entries in
    another order. *)
Definition studio_shuffled : filesystem := λ p,
  if decide (p = "data/Video") then
    Some (Directory ["clip.MP4"; "a.mp4"; "notes.txt"; "b.mp4"])
  else if decide (p = "data/Audio/spk_ganyu") then
    Some (Directory ["x.mp3"; "z.wav"; "x.wav"; "y.wav"])
  else if decide (p = "README") then Some RegularFile
  else None.

Definition shuffled : World :=
  {| fs := studio_shuffled; entropy := [4; 7; 5; 1; 9; 2]%N;
     random_seed_tape := λ s, [Z.to_N s; 3; 2; 8]%N;
     time_reading := λ n, Qnat (10 * n); now_reading := λ n, noon n;
     child := λ _ _, Exited 0 "" |}.

(** The audio files a run goes through and the machine at its first pass,
    for a run that found input and has no negative cap. *)
Definition queue (w : World) (args : Args) : list string :=
  (to_process args (get_audio_files w (audio_dir args)) (first_tape w args)).1.

Definition entry (w : World) (args : Args) : Machine :=
  {| rng := (to_process args (get_audio_files w (audio_dir args)) (first_tape w args)).2;
     trace := preamble args (get_video_files w (video_dir args))
                (get_audio_files w (audio_dir args));
     time_calls := 1; now_calls := 0; exec_calls := 0 |}.

(** The machine once the summary is printed. *)
Definition summed_up (w : World) (args : Args) (l : Locals) (σ : Machine) : Machine :=
  {| rng := rng σ;
     trace := trace σ ++ summary (output_dir args) (time_reading w 0)
                           (time_reading w (time_calls σ)) l;
     time_calls := S (time_calls σ); now_calls := now_calls σ;
     exec_calls := exec_calls σ |}.

(** How the calls of the tool for the jobs [js] end, the first of them
    being call number 0. *)
Definition launches (w : World) (js : list JobSpec) : list completion :=
  imap (λ k j, child w k (command j)) js.

Definition started (c : completion) : bool :=
  match c with
  | Exited _ _ => true
  | NotLaunched => false
  end.

(** Exit status zero. *)
Definition succeeded (c : completion) : bool :=
  match c with
  | Exited rc _ => bool_decide (rc = 0%Z)
  | NotLaunched => false
  end.

(** The line [run_inference] prints about a tool that has exited. *)
Definition verdict (j : JobSpec) (rc : Z) (stderr : string) : line :=
  if decide (rc = 0%Z) then PGenerated (Path.name (job_output_path j))
  else PError (Path.name (job_output_path j)) stderr.

(** The same arguments without [--max_combinations]. *)
Definition uncapped (args : Args) : Args :=
  {| video_dir := video_dir args; audio_dir := audio_dir args;
     output_dir := output_dir args; config_path := config_path args;
     ckpt_path := ckpt_path args; inference_steps := inference_steps args;
     guidance_scale := guidance_scale args; enable_deepcache := enable_deepcache args;
     max_combinations := None; random_seed := random_seed args;
     allow_repeat_videos := allow_repeat_videos args |}.


(** A date and time whose fields fit the columns [strftime] gives them. *)
Definition fits (d : datetime) : Prop :=
  year d < 10 ^ 4 ∧ month d < 10 ^ 2 ∧ day d < 10 ^ 2
  ∧ hour d < 10 ^ 2 ∧ minute d < 10 ^ 2 ∧ second d < 10 ^ 2.

(** * Properties *)

(** ** Strings *)

Lemma app_String a s t : String a s +:+ t = String a (s +:+ t).
Proof. reflexivity. Qed.

Lemma app_empty_l t : "" +:+ t = t.
Proof. reflexivity. Qed.

Lemma length_append s t : String.length (s +:+ t) = String.length s + String.length t.
Proof. induction s as [|a s IH]; [done|]. rewrite app_String. simpl. by rewrite IH. Qed.

Lemma drop_app s t k : Str.drop (String.length s + k) (s +:+ t) = Str.drop k t.
Proof. induction s as [|a s IH]; [done|]. rewrite app_String. simpl. apply IH. Qed.

Lemma endswith_app s t suf :
  Str.endswith t suf = true → Str.endswith (s +:+ t) suf = true.
Proof.
  unfold Str.endswith. rewrite !andb_true_iff, !bool_decide_eq_true.
  intros [Hle Hd]. rewrite length_append. split; [lia|].
  replace (String.length s + String.length t - String.length suf)
    with (String.length s + (String.length t - String.length suf)) by lia.
  by rewrite drop_app.
Qed.

Example stem_drops_the_last_suffix :
  Path.stem "data/Video/a.b.mp4" = "a.b" ∧ Path.stem "data/Video/.mp4" = ".mp4"
  ∧ Path.name "data/Video/a.mp4" = "a.mp4" ∧ Path.stem "x/y." = "y.".
Proof. vm_compute. done. Qed.

Example strftime_at_noon : strftime (noon 7) = "20240517_120007".
Proof. reflexivity. Qed.

(** ** Discovery *)

Example discovery_in_the_studio :
  get_video_files calm "data/Video" = ["data/Video/a.mp4"; "data/Video/b.mp4"]
  ∧ get_audio_files calm "data/Audio/spk_ganyu"
    = ["data/Audio/spk_ganyu/x.wav"; "data/Audio/spk_ganyu/y.wav";
       "data/Audio/spk_ganyu/z.wav"]
  ∧ get_video_files calm "README" = []
  ∧ get_video_files calm "nowhere" = [].
Proof. vm_compute. done. Qed.

Section discovery.
Context (w : World).

Lemma sorted_nil : sorted [] = [].
Proof. reflexivity. Qed.

Lemma sorted_Permutation l : sorted l ≡ₚ l.
Proof. apply merge_sort_Permutation. Qed.

Lemma sorted_StronglySorted l : StronglySorted String.le (sorted l).
Proof. apply StronglySorted_merge_sort; apply _. Qed.

Lemma glob_endswith dir ext :
  Forall (λ p, Str.endswith p ext = true) (glob w dir ext).
Proof.
  unfold glob. destruct (fs w dir) as [[|entries]|]; try constructor.
  apply Forall_fmap, Forall_forall. intros n [Hn _]%list_elem_of_filter. simpl.
  unfold Path.joinpath. do 2 apply endswith_app.
  unfold Path.matches in Hn. by apply Is_true_true.
Qed.

Lemma discover_endswith (b : bool) dir ext :
  Forall (λ p, Str.endswith p ext = true) (sorted (if b then glob w dir ext else [])).
Proof.
  rewrite sorted_Permutation. destruct b; [apply glob_endswith | constructor].
Qed.

(** C8: discovery returns the matching entries of the directory, each
    once per listing, as paths in ascending order; every returned path ends
    with the extension; a missing path (or one that is no directory) gives
    the empty list. *)
Theorem discovery_sorted_matching (dir : string) :
  StronglySorted String.le (get_video_files w dir)
  ∧ StronglySorted String.le (get_audio_files w dir)
  ∧ Forall (λ p, Str.endswith p ".mp4" = true) (get_video_files w dir)
  ∧ Forall (λ p, Str.endswith p ".wav" = true) (get_audio_files w dir)
  ∧ match fs w dir with
    | Some (Directory entries) =>
        get_video_files w dir
          ≡ₚ Path.joinpath dir <$> filter (λ n, Is_true (Str.endswith n ".mp4")) entries
        ∧ get_audio_files w dir
          ≡ₚ Path.joinpath dir <$> filter (λ n, Is_true (Str.endswith n ".wav")) entries
    | Some RegularFile | None =>
        get_video_files w dir = [] ∧ get_audio_files w dir = []
    end.
Proof.
  unfold get_video_files, get_audio_files.
  repeat split; try apply sorted_StronglySorted; try apply discover_endswith.
  unfold path_exists, glob.
  destruct (fs w dir) as [[|entries]|]; simpl; try done.
  split; apply sorted_Permutation.
Qed.

End discovery.


(** ** The monad *)

Lemma bind_inr {A B} (m : M A) (k : A → M B) σ a σ' :
  m σ = (inr a, σ') → bind m k σ = k a σ'.
Proof. unfold bind. by intros ->. Qed.

Lemma bind_inl {A B} (m : M A) (k : A → M B) σ e σ' :
  m σ = (inl e, σ') → bind m k σ = (inl e, σ').
Proof. unfold bind. by intros ->. Qed.

Lemma Qnat_S_nonzero n : Qeq_bool (Qnat (S n)) 0 = false.
Proof. reflexivity. Qed.

Lemma truediv_S a n σ : truediv a (Qnat (S n)) σ = (inr (a / Qnat (S n))%Q, σ).
Proof. unfold truediv. by rewrite Qnat_S_nonzero. Qed.

(** ** The loop *)

(** An invariant that every pass keeps holds when the loop returns; an
    exception leaves through the exit condition of the pass that raised it. *)
Lemma for_each_rule {A St} (body : A → St → M St)
    (I : nat → St → Machine → Prop) (E : exn → Machine → Prop) (l : list A) :
  (∀ i x s σ, l !! i = Some x → I i s σ →
     match body x s σ with
     | (inr s', σ') => I (S i) s' σ'
     | (inl e, σ') => E e σ'
     end) →
  ∀ s σ, I 0 s σ →
    match for_each l body s σ with
    | (inr s', σ') => I (length l) s' σ'
    | (inl e, σ') => E e σ'
    end.
Proof.
  revert I. induction l as [|x l IH]; intros I Hbody s σ HI; simpl; [done|].
  unfold bind. specialize (Hbody 0 x s σ eq_refl HI) as Hx.
  destruct (body x s σ) as [[e|s'] σ']; [done|].
  apply (IH (λ i, I (S i))); [|done].
  intros i y s0 σ0 Hy. apply (Hbody (S i)). done.
Qed.

Lemma sample_loop_picks n i k pool σ :
  random.sample_loop n i k pool σ
  = (inr (sample_picks n i k pool (rng σ)),
     {| rng := drop k (rng σ); trace := trace σ; time_calls := time_calls σ;
        now_calls := now_calls σ; exec_calls := exec_calls σ |}).
Proof.
  revert i pool σ. induction k as [|k IH]; intros i pool σ; simpl.
  - by destruct σ.
  - unfold bind at 1. unfold random.randbelow at 1. simpl.
    unfold bind at 1. rewrite IH. simpl. unfold ret. f_equal. f_equal.
    destruct (rng σ); simpl; [by rewrite drop_nil | done].
Qed.

Lemma length_sample_picks n i k pool g : length (sample_picks n i k pool g) = k.
Proof. revert i pool g. induction k as [|k IH]; intros; simpl; [done|]. by rewrite IH. Qed.

(** ** One iteration *)

Section iteration.
Context (w : World) (args : Args) (video_files : list string).
Hypothesis some_video : video_files ≠ [].

Lemma choice_nonempty (seq : list string) σ :
  seq ≠ [] →
  random.choice seq σ
  = (inr (seq !!! N.to_nat (hd 0%N (rng σ) `mod` N.of_nat (length seq))%N),
     {| rng := tail (rng σ); trace := trace σ; time_calls := time_calls σ;
        now_calls := now_calls σ; exec_calls := exec_calls σ |}).
Proof. intros Hne. unfold random.choice. by destruct (decide (seq = [])). Qed.

Lemma select_video_pick used σ :
  select_video args video_files used σ
  = let p := pick (allow_repeat_videos args) video_files used (hd 0%N (rng σ)) in
    (inr (p.1.2, p.2),
     {| rng := tail (rng σ); trace := trace σ ++ (Print <$> p.1.1);
        time_calls := time_calls σ; now_calls := now_calls σ;
        exec_calls := exec_calls σ |}).
Proof.
  destruct σ as [g t tc nc ec]. unfold select_video, pick.
  destruct (allow_repeat_videos args); simpl.
  - unfold bind at 1. unfold ret at 1. unfold bind.
    rewrite choice_nonempty by done. simpl. by rewrite app_nil_r.
  - destruct (bool_decide (length video_files ≤ size used)); simpl.
    + unfold bind at 1. unfold bind at 1. unfold print, emit, ret at 1. simpl.
      set (av := filter (λ v, v ∉ (∅ : gset string)) video_files).
      destruct (decide (av = [])) as [Hav|Hav].
      * rewrite bool_decide_eq_true_2 by done.
        unfold bind, print, emit, ret. simpl.
        rewrite choice_nonempty by done. simpl. by rewrite <-app_assoc.
      * rewrite bool_decide_eq_false_2 by done.
        unfold bind, print, emit, ret. simpl.
        rewrite choice_nonempty by done. simpl. done.
    + unfold bind at 1. unfold ret at 1.
      set (av := filter (λ v, v ∉ used) video_files).
      destruct (decide (av = [])) as [Hav|Hav].
      * rewrite bool_decide_eq_true_2 by done.
        unfold bind, print, emit, ret. simpl.
        rewrite choice_nonempty by done. simpl. done.
      * rewrite bool_decide_eq_false_2 by done.
        unfold bind, print, emit, ret. simpl.
        rewrite choice_nonempty by done. simpl. by rewrite app_nil_r.
Qed.

Lemma run_inference_unfold video audio output seed σ :
  let sd := resolve_seed seed (rng σ) in
  let j := {| job_video_path := video; job_audio_path := audio;
              job_output_path := output; job_config_path := config_path args;
              job_ckpt_path := ckpt_path args;
              job_inference_steps := inference_steps args;
              job_guidance_scale := guidance_scale args; job_seed := sd.1;
              job_enable_deepcache := enable_deepcache args |} in
  let t1 := trace σ ++ [Print (PRunning (Path.name video) (Path.name audio)
                                 (Path.name output) sd.1 (Str.join " " (command j)));
                        Exec j] in
  run_inference w video audio output (config_path args) (ckpt_path args)
    (inference_steps args) (guidance_scale args) seed (enable_deepcache args) σ
  = match child w (exec_calls σ) (command j) with
    | NotLaunched =>
        (inl OSError,
         {| rng := sd.2; trace := t1; time_calls := time_calls σ;
            now_calls := now_calls σ; exec_calls := S (exec_calls σ) |})
    | Exited rc err =>
        (inr (bool_decide (rc = 0%Z)),
         {| rng := sd.2;
            trace := t1 ++ [Print (if decide (rc = 0%Z) then PGenerated (Path.name output)
                                   else PError (Path.name output) err)];
            time_calls := time_calls σ; now_calls := now_calls σ;
            exec_calls := S (exec_calls σ) |})
    end.
Proof.
  destruct σ as [g t tc nc ec]. unfold run_inference, resolve_seed.
  destruct seed as [s|]; simpl.
  - unfold bind at 1. unfold ret at 1. unfold bind at 1. unfold print at 1, emit.
    simpl. unfold try_except, bind, subprocess_run. simpl.
    destruct (child w ec _) as [rc err|]; [|by rewrite <-app_assoc].
    destruct (decide (rc = 0%Z)); simpl.
    + unfold print, emit, ret. simpl. rewrite bool_decide_eq_true_2 by done.
      by rewrite <-!app_assoc.
    + unfold bind, print, emit, ret. simpl. rewrite bool_decide_eq_false_2 by done.
      by rewrite <-!app_assoc.
  - unfold bind at 1. unfold random.randint, bind at 1, random.randbelow, ret at 1.
    simpl. unfold bind at 1. unfold print at 1, emit.
    simpl. unfold try_except, bind, subprocess_run. simpl.
    destruct (child w ec _) as [rc err|]; [|by rewrite <-app_assoc].
    destruct (decide (rc = 0%Z)); simpl.
    + unfold print, emit, ret. simpl. rewrite bool_decide_eq_true_2 by done.
      by rewrite <-!app_assoc.
    + unfold bind, print, emit, ret. simpl. rewrite bool_decide_eq_false_2 by done.
      by rewrite <-!app_assoc.
Qed.

Lemma process_unfold output_dir total start audio l σ :
  let p := pick (allow_repeat_videos args) video_files (used_videos l) (hd 0%N (rng σ)) in
  let sd := resolve_seed (random_seed args) (tail (rng σ)) in
  let count := S (combination_count l) in
  let j := job_at w args output_dir (now_calls σ) p.1.2 audio sd.1 in
  let t1 := trace σ ++ (Print <$> p.1.1) ++ announce total count j in
  let elapsed := (time_reading w (time_calls σ) - start)%Q in
  total ≠ 0 →
  process w args video_files output_dir total start audio l σ
  = match child w (exec_calls σ) (command j) with
    | NotLaunched =>
        (inl OSError,
         {| rng := sd.2; trace := t1; time_calls := time_calls σ;
            now_calls := S (now_calls σ); exec_calls := S (exec_calls σ) |})
    | Exited rc err =>
        let ok := bool_decide (rc = 0%Z) in
        let s := if ok then S (successful l) else successful l in
        let f := if ok then failed l else S (failed l) in
        (inr {| used_videos := p.2; combination_count := count;
                successful := s; failed := f |},
         {| rng := sd.2; trace := t1 ++ report total count s f elapsed j rc err;
            time_calls := S (time_calls σ); now_calls := S (now_calls σ);
            exec_calls := S (exec_calls σ) |})
    end.
Proof.
  intros p sd count j t1 elapsed Htotal. unfold process.
  rewrite (bind_inr _ _ _ _ _ (select_video_pick _ _)). fold p. cbv zeta.
  cbn [fst snd]. unfold bind at 1. unfold datetime_now at 1. cbn [rng trace time_calls now_calls exec_calls].
  unfold bind at 1. unfold print at 1, emit at 1.
  cbn [rng trace time_calls now_calls exec_calls].
  unfold bind at 1. rewrite run_inference_unfold.
  cbn [rng trace time_calls now_calls exec_calls]. fold sd.
  change {| job_video_path := p.1.2; job_audio_path := audio;
            job_output_path := _; job_config_path := _; job_ckpt_path := _;
            job_inference_steps := _; job_guidance_scale := _; job_seed := _;
            job_enable_deepcache := _ |} with j.
  change (Path.joinpath output_dir _) with (job_output_path j).
  destruct (child w (exec_calls σ) (command j)) as [rc err|].
  - unfold bind at 1. unfold time_time at 1.
    cbn [rng trace time_calls now_calls exec_calls].
    unfold bind at 1. rewrite truediv_S. unfold bind at 1.
    destruct total as [|total]; [done|]. rewrite truediv_S.
    unfold bind, print, emit, ret. cbn [rng trace time_calls now_calls exec_calls].
    f_equal. f_equal. unfold t1, announce, report. rewrite <-!app_assoc. simpl.
    repeat f_equal.
  - f_equal. f_equal. unfold t1, announce. rewrite <-!app_assoc. reflexivity.
Qed.

Lemma process_cases output_dir total start audio l σ :
  total ≠ 0 →
  process w args video_files output_dir total start audio l σ
  = match child w (exec_calls σ)
            (command (next_job w args video_files output_dir audio l σ)) with
    | NotLaunched =>
        (inl OSError, after_launch w args video_files output_dir total audio l σ)
    | Exited rc err =>
        (inr (after_exit_locals args video_files l σ rc),
         after_exit w args video_files output_dir total start audio l σ rc err)
    end.
Proof. intros Htotal. by rewrite process_unfold. Qed.

(** The loop keeps an invariant that every pass keeps; the only exception
    that leaves it is the one of a tool that could not be started. *)
Lemma loop_rule output_dir total start
    (I : nat → Locals → Machine → Prop) (E : Machine → Prop) (audios : list string) :
  total ≠ 0 →
  (∀ i audio l σ, audios !! i = Some audio → I i l σ →
     match child w (exec_calls σ)
             (command (next_job w args video_files output_dir audio l σ)) with
     | NotLaunched => E (after_launch w args video_files output_dir total audio l σ)
     | Exited rc err =>
         I (S i) (after_exit_locals args video_files l σ rc)
           (after_exit w args video_files output_dir total start audio l σ rc err)
     end) →
  ∀ l σ, I 0 l σ →
    match for_each audios (process w args video_files output_dir total start) l σ with
    | (inr l', σ') => I (length audios) l' σ'
    | (inl e, σ') => e = OSError ∧ E σ'
    end.
Proof.
  intros Htotal Hpass.
  apply (for_each_rule _ I (λ e σ', e = OSError ∧ E σ')).
  intros i audio l σ Hi HI. rewrite process_cases by done.
  specialize (Hpass i audio l σ Hi HI).
  by destruct (child w (exec_calls σ) _).
Qed.

End iteration.

(** ** The trace of a pass *)

Lemma jobs_app t1 t2 : jobs (t1 ++ t2) = jobs t1 ++ jobs t2.
Proof. apply omap_app. Qed.

Lemma jobs_prints ls : jobs (Print <$> ls) = [].
Proof. induction ls; done. Qed.

Lemma jobs_announce total count j : jobs (announce total count j) = [j].
Proof. done. Qed.

Lemma jobs_report total count s f elapsed j rc err :
  jobs (report total count s f elapsed j rc err) = [].
Proof. done. Qed.

Lemma jobs_summary out start t l : jobs (summary out start t l) = [].
Proof. done. Qed.

Lemma jobs_preamble args vf af : jobs (preamble args vf af) = [].
Proof. done. Qed.

Section pass_trace.
Context (w : World) (args : Args) (video_files : list string) (output_dir : string)
  (total : nat) (start : Q) (audio : string) (l : Locals) (σ : Machine).

Lemma jobs_after_launch :
  jobs (trace (after_launch w args video_files output_dir total audio l σ))
  = jobs (trace σ) ++ [next_job w args video_files output_dir audio l σ].
Proof.
  unfold after_launch. cbn [trace].
  by rewrite !jobs_app, jobs_prints, jobs_announce.
Qed.

Lemma jobs_after_exit rc err :
  jobs (trace (after_exit w args video_files output_dir total start audio l σ rc err))
  = jobs (trace σ) ++ [next_job w args video_files output_dir audio l σ].
Proof.
  unfold after_exit. cbn [trace].
  by rewrite jobs_app, jobs_after_launch, jobs_report, app_nil_r.
Qed.

End pass_trace.

Lemma final_summary_unfold w out start l σ :
  combination_count l ≠ 0 →
  final_summary w out start l σ
  = (inr tt,
     {| rng := rng σ;
        trace := trace σ ++ summary out start (time_reading w (time_calls σ)) l;
        time_calls := S (time_calls σ); now_calls := now_calls σ;
        exec_calls := exec_calls σ |}).
Proof.
  intros Hcc. destruct (combination_count l) as [|n] eqn:Hn; [done|].
  unfold final_summary, summary. rewrite Hn.
  unfold bind at 1. unfold time_time at 1. cbn [rng trace time_calls now_calls exec_calls].
  do 4 (unfold bind at 1; unfold print at 1, emit at 1;
        cbn [rng trace time_calls now_calls exec_calls]).
  unfold bind at 1. rewrite truediv_S.
  do 2 (unfold bind at 1; unfold print at 1, emit at 1;
        cbn [rng trace time_calls now_calls exec_calls]).
  unfold bind at 1. rewrite truediv_S.
  unfold bind, print, emit. cbn [rng trace time_calls now_calls exec_calls].
  by rewrite <-!app_assoc.
Qed.

(** ** A run, from its start to the loop *)

Section running.
Context (w : World) (args : Args).

Let video_files := get_video_files w (video_dir args).
Let audio_files := get_audio_files w (audio_dir args).

Lemma run_no_input :
  video_files = [] ∨ audio_files = [] →
  run w args (boot w)
  = (inr tt,
     {| rng := first_tape w args;
        trace := [ Print PScanning;
                   Print (PFoundVideos (Path.name <$> video_files));
                   Print (PFoundAudios (Path.name <$> audio_files));
                   Print (if decide (video_files = []) then PNoVideo else PNoAudio) ];
        time_calls := 0; now_calls := 0; exec_calls := 0 |}).
Proof.
  intros Hempty. unfold run, first_tape, boot.
  fold video_files audio_files.
  destruct (random_seed args) as [s|];
    unfold bind, set_rng, print, emit, ret; simpl;
    destruct (decide (video_files = [])) as [Hv|Hv]; simpl; try done;
    destruct (decide (audio_files = [])) as [Ha|Ha]; simpl; try done;
    by destruct Hempty.
Qed.

Lemma run_negative :
  video_files ≠ [] → audio_files ≠ [] → negative (max_combinations args) = true →
  run w args (boot w)
  = (inl ValueError,
     {| rng := first_tape w args; trace := preamble args video_files audio_files;
        time_calls := 1; now_calls := 0; exec_calls := 0 |}).
Proof.
  intros Hv Ha Hneg. unfold run, first_tape, boot, preamble, job_bound.
  fold video_files audio_files.
  destruct (max_combinations args) as [c|]; [|done]. simpl in Hneg.
  apply bool_decide_eq_true in Hneg.
  assert (truthy (Some c) = true) as Ht.
  { simpl. apply negb_true_iff, Z.eqb_neq. lia. }
  rewrite !Ht. cbn [default from_option id andb].
  pose proof (Nat2Z.is_nonneg (length audio_files)) as Hlen.
  rewrite (bool_decide_eq_true_2 (c < _)%Z) by lia.
  unfold random.sample. rewrite bool_decide_eq_false_2 by lia.
  destruct (random_seed args) as [s|];
    unfold bind, set_rng, print, emit, ret, create_output_dir, time_time, raise;
    simpl;
    destruct (decide (video_files = [])); try done;
    destruct (decide (audio_files = [])); done.
Qed.

Lemma run_loop :
  video_files ≠ [] → audio_files ≠ [] → negative (max_combinations args) = false →
  let tp := to_process args audio_files (first_tape w args) in
  run w args (boot w)
  = bind (for_each tp.1
            (process w args video_files (output_dir args) (length tp.1) (time_reading w 0))
            fresh)
         (final_summary w (output_dir args) (time_reading w 0))
         {| rng := tp.2; trace := preamble args video_files audio_files;
            time_calls := 1; now_calls := 0; exec_calls := 0 |}.
Proof.
  intros Hv Ha Hneg tp. subst tp. unfold run, first_tape, boot, preamble, job_bound.
  fold video_files audio_files.
  assert (∀ g t,
    (if samples args audio_files
     then random.sample audio_files (default 0%Z (max_combinations args))
     else ret audio_files)
      {| rng := g; trace := t; time_calls := 1; now_calls := 0; exec_calls := 0 |}
    = (inr (to_process args audio_files g).1,
       {| rng := (to_process args audio_files g).2; trace := t;
          time_calls := 1; now_calls := 0; exec_calls := 0 |})) as Hsample.
  { intros g t. unfold to_process. destruct (samples args audio_files) eqn:Hs; [|done].
    unfold samples in Hs. apply andb_true_iff in Hs as [_ Hlt].
    apply bool_decide_eq_true in Hlt.
    pose proof (Nat2Z.is_nonneg (length audio_files)) as Hlen.
    destruct (max_combinations args) as [c|]; simpl in *.
    - apply bool_decide_eq_false in Hneg. unfold random.sample.
      rewrite bool_decide_eq_true_2 by lia. by rewrite sample_loop_picks.
    - unfold random.sample. rewrite bool_decide_eq_true_2 by lia.
      by rewrite sample_loop_picks. }
  unfold samples in Hsample.
  destruct (random_seed args) as [s|];
    unfold bind at 1; unfold set_rng, ret at 1; simpl;
    unfold bind at 1; unfold print at 1, emit at 1; simpl;
    unfold bind at 1; unfold print at 1, emit at 1; simpl;
    unfold bind at 1; unfold print at 1, emit at 1; simpl;
    destruct (decide (video_files = [])); try done;
    destruct (decide (audio_files = [])); try done;
    unfold bind at 1; unfold create_output_dir, bind at 1, emit at 1, ret at 1; simpl;
    unfold bind at 1; unfold print at 1, emit at 1; simpl;
    unfold bind at 1; unfold print at 1, emit at 1; simpl;
    unfold bind at 1; unfold print at 1, emit at 1; simpl;
    unfold bind at 1; unfold time_time at 1; simpl;
    unfold bind at 1; rewrite Hsample; done.
Qed.

End running.

(** ** How a run ends *)

Lemma length_to_process args af g :
  af ≠ [] → negative (max_combinations args) = false →
  Z.of_nat (length (to_process args af g).1) = job_bound af (max_combinations args)
  ∧ 0 < length (to_process args af g).1.
Proof.
  intros Haf Hneg. unfold to_process, job_bound, samples.
  assert (0 < length af) as Hlen by (destruct af; [done | simpl; lia]).
  destruct (max_combinations args) as [c|]; simpl in *; [|split; [done | lia]].
  apply bool_decide_eq_false in Hneg.
  destruct (c =? 0)%Z eqn:Hc; simpl.
  { split; [done | lia]. }
  apply Z.eqb_neq in Hc.
  destruct (bool_decide (c < Z.of_nat (length af))%Z) eqn:Hlt; simpl.
  - apply bool_decide_eq_true in Hlt. rewrite length_sample_picks. lia.
  - apply bool_decide_eq_false in Hlt. lia.
Qed.

Section outcome.
Context (w : World) (args : Args).

Let video_files := get_video_files w (video_dir args).
Let audio_files := get_audio_files w (audio_dir args).
Let audios := (to_process args audio_files (first_tape w args)).1.

(** A run that enters the loop either stops at a tool that could not be
    started, or returns after one job per audio file and the summary. *)
Lemma run_outcome :
  video_files ≠ [] → audio_files ≠ [] → negative (max_combinations args) = false →
  let r := run w args (boot w) in
  (r.1 = inl OSError ∧ 0 < length (jobs (trace r.2)) ≤ length audios)
  ∨ (r.1 = inr tt ∧ ∃ l pre t,
       trace r.2 = pre ++ summary (output_dir args) (time_reading w 0) t l
       ∧ jobs pre = jobs (trace r.2)
       ∧ length (jobs (trace r.2)) = length audios
       ∧ combination_count l = length audios
       ∧ successful l + failed l = length audios).
Proof.
  intros Hv Ha Hneg r. subst r. rewrite run_loop by done.
  fold video_files audio_files audios.
  destruct (length_to_process args audio_files (first_tape w args) Ha Hneg)
    as [_ Hpos]. fold audio_files audios in Hpos.
  set (σ1 := {| rng := _; trace := _; time_calls := 1; now_calls := 0; exec_calls := 0 |}).
  pose proof (loop_rule w args video_files Hv (output_dir args) (length audios)
    (time_reading w 0)
    (λ i l σ, combination_count l = i ∧ successful l + failed l = i
              ∧ length (jobs (trace σ)) = i)
    (λ σ, 0 < length (jobs (trace σ)) ≤ length audios)
    audios ltac:(lia)) as Hloop.
  unfold bind.
  match type of Hloop with ?P → _ => assert P as Hpass end.
  { intros i audio l σ Hi (Hcc & Hsf & Hj).
    apply lookup_lt_Some in Hi.
    destruct (child w (exec_calls σ) _) as [rc err|].
    - rewrite jobs_after_exit, length_app. simpl.
      destruct (bool_decide (rc = 0%Z)); simpl; lia.
    - rewrite jobs_after_launch, length_app. simpl. lia. }
  specialize (Hloop Hpass fresh σ1 ltac:(done)).
  destruct (for_each audios _ fresh σ1) as [[e|l] σ'].
  - left. destruct Hloop as [-> Hj]. done.
  - right. destruct Hloop as (Hcc & Hsf & Hj).
    rewrite final_summary_unfold by lia. simpl.
    split; [done|]. eexists l, (trace σ'), _. split; [done|].
    by rewrite jobs_app, jobs_summary, app_nil_r.
Qed.

End outcome.

(** ** Input and configuration errors *)

(** C7: when discovery finds no video or no audio file, the run prints the
    matching message as its last line and returns; no job is built, the
    tool is never called and the output directory is not created. *)
Theorem no_input_exits_early (w : World) (args : Args) :
  get_video_files w (video_dir args) = [] ∨ get_audio_files w (audio_dir args) = [] →
  (run w args (boot w)).1 = inr tt
  ∧ jobs (trace (run w args (boot w)).2) = []
  ∧ exec_calls (run w args (boot w)).2 = 0
  ∧ ¬ Mkdir (output_dir args) ∈ trace (run w args (boot w)).2
  ∧ last (trace (run w args (boot w)).2)
    = Some (Print (if decide (get_video_files w (video_dir args) = [])
                   then PNoVideo else PNoAudio)).
Proof.
  intros Hempty. rewrite run_no_input by done. cbn [fst snd trace exec_calls].
  repeat split; try done.
  intros Hin. repeat (apply elem_of_cons in Hin as [Hin|Hin]; [discriminate|]).
  by apply elem_of_nil in Hin.
Qed.

Lemma no_input_exits_early_witness :
  (main empty_handed plain).1 = inr tt ∧ jobs (trace (main empty_handed plain).2) = [].
Proof.
  destruct (no_input_exits_early empty_handed (parse_args plain)) as (H1 & H2 & _).
  - left. vm_compute. reflexivity.
  - split; [exact H1 | exact H2].
Defined.

(** C10: a negative cap, with video and audio files present, ends the run
    with the [ValueError] of [random.sample]: nothing was launched and
    neither of the two input-error messages was printed. *)
Theorem negative_cap_raises (w : World) (args : Args) (c : Z) :
  max_combinations args = Some c → (c < 0)%Z →
  get_video_files w (video_dir args) ≠ [] →
  get_audio_files w (audio_dir args) ≠ [] →
  (run w args (boot w)).1 = inl ValueError
  ∧ jobs (trace (run w args (boot w)).2) = []
  ∧ exec_calls (run w args (boot w)).2 = 0
  ∧ Forall (λ e, no_input e = false) (trace (run w args (boot w)).2).
Proof.
  intros Hc Hneg Hv Ha. rewrite run_negative; try done.
  - cbn [fst snd trace exec_calls]. repeat split; try done.
    unfold preamble. repeat constructor.
  - rewrite Hc. simpl. by apply bool_decide_eq_true.
Qed.

Lemma negative_cap_raises_witness :
  (main calm (with_cap (-1))).1 = inl ValueError
  ∧ jobs (trace (main calm (with_cap (-1))).2) = [].
Proof.
  destruct (negative_cap_raises calm (parse_args (with_cap (-1))) (-1))
    as (H1 & H2 & _).
  - reflexivity.
  - lia.
  - vm_compute. discriminate.
  - vm_compute. discriminate.
  - split; [exact H1 | exact H2].
Defined.

(** ** The number of jobs *)

Lemma job_bound_nonneg af cap : negative cap = false → (0 ≤ job_bound af cap)%Z.
Proof.
  unfold job_bound. destruct cap as [c|]; simpl; [|lia].
  intros Hneg%bool_decide_eq_false. destruct (c =? 0)%Z; simpl; lia.
Qed.

(** The bound [min(len(audio_files), max_combinations or ∞)] does not hold
    for every cap: with [--max_combinations -1] it is -1, and the run, which
    launches nothing, is above it. *)
Lemma jobs_exceed_a_negative_bound :
  ¬ (Z.of_nat (length (jobs (trace (main calm (with_cap (-1))).2)))
     ≤ job_bound (get_audio_files calm (audio_dir (parse_args (with_cap (-1)))))
         (max_combinations (parse_args (with_cap (-1)))))%Z.
Proof.
  assert (job_bound (get_audio_files calm (audio_dir (parse_args (with_cap (-1)))))
            (max_combinations (parse_args (with_cap (-1)))) = (-1)%Z) as ->
    by (vm_compute; reflexivity).
  lia.
Qed.

(** C3, as the script has it: with a cap that is unset, zero or positive a
    run launches at most [min(len(audio_files), max_combinations or ∞)]
    jobs, whatever the two lists are; with a negative cap it launches
    none. *)
Theorem jobs_bounded (w : World) (args : Args) :
  if negative (max_combinations args)
  then jobs (trace (run w args (boot w)).2) = []
  else (Z.of_nat (length (jobs (trace (run w args (boot w)).2)))
        ≤ job_bound (get_audio_files w (audio_dir args)) (max_combinations args))%Z.
Proof.
  destruct (decide (get_video_files w (video_dir args) = []
                    ∨ get_audio_files w (audio_dir args) = [])) as [Hempty|Hfull].
  { rewrite run_no_input by done. cbn [snd trace].
    destruct (negative _) eqn:Hneg; [done|]. simpl. by apply job_bound_nonneg. }
  assert (get_video_files w (video_dir args) ≠ []) as Hv by (intros ?; apply Hfull; by left).
  assert (get_audio_files w (audio_dir args) ≠ []) as Ha by (intros ?; apply Hfull; by right).
  destruct (negative _) eqn:Hneg.
  { by rewrite run_negative. }
  destruct (length_to_process args _ (first_tape w args) Ha Hneg) as [<- _].
  destruct (run_outcome w args Hv Ha Hneg) as [[_ Hj]|(_ & l & pre & t & _ & _ & Hj & _)];
    lia.
Qed.

(** ** The final summary *)

(** C6: no run raises [ZeroDivisionError].  A run that returns either found
    no input, and then printed no summary and launched nothing, or ends with
    the summary: the totals, the success rate [successful / count * 100],
    the total time and the average [total_time / count], where [count] is
    the number of jobs launched and is not zero. *)
Theorem summary_divisions_are_safe (w : World) (args : Args) :
  match (run w args (boot w)).1 with
  | inl e => e = OSError ∨ e = ValueError
  | inr _ =>
      (jobs (trace (run w args (boot w)).2) = []
       ∧ ∃ e, last (trace (run w args (boot w)).2) = Some e ∧ no_input e = true)
      ∨ (∃ l pre t,
           trace (run w args (boot w)).2
           = pre ++ summary (output_dir args) (time_reading w 0) t l
           ∧ combination_count l = length (jobs (trace (run w args (boot w)).2))
           ∧ successful l + failed l = combination_count l
           ∧ 0 < combination_count l)
  end.
Proof.
  destruct (decide (get_video_files w (video_dir args) = []
                    ∨ get_audio_files w (audio_dir args) = [])) as [Hempty|Hfull].
  { rewrite run_no_input by done. cbn [fst snd trace]. left. split; [done|].
    eexists. split; [done|]. by destruct decide. }
  assert (get_video_files w (video_dir args) ≠ []) as Hv by (intros ?; apply Hfull; by left).
  assert (get_audio_files w (audio_dir args) ≠ []) as Ha by (intros ?; apply Hfull; by right).
  destruct (negative (max_combinations args)) eqn:Hneg.
  { rewrite run_negative by done. by right. }
  destruct (length_to_process args _ (first_tape w args) Ha Hneg) as [_ Hpos].
  destruct (run_outcome w args Hv Ha Hneg)
    as [[-> _]|(-> & l & pre & t & Ht & _ & Hj & Hcc & Hsf)]; [by left|].
  right. exists l, pre, t. repeat split; try done; lia.
Qed.

(** ** The command line *)

(** C1: whatever the command line, [allow_repeat_videos] parses to true (the
    switch stores true and its default is true), so [main] always takes the
    branch that draws from the full video list: it never prints one of the
    two warnings of the no-repeat policy. *)
Theorem allow_repeat_videos_always_true (cl : CommandLine) :
  allow_repeat_videos (parse_args cl) = true
  ∧ ∀ video_files used σ,
      select_video (parse_args cl) video_files used σ
      = (let* sampled_video := random.choice video_files in ret (sampled_video, used)) σ.
Proof.
  assert (allow_repeat_videos (parse_args cl) = true) as Hallow.
  { simpl. by destruct (cl_allow_repeat_videos cl). }
  split; [done|]. intros vf used σ. unfold select_video. rewrite Hallow. done.
Qed.

(** ** A tool that cannot be started *)

(** C2, at the pass where it fails: when the tool of a pass cannot be
    started, [OSError] leaves [run_inference], the pass and the loop; the
    failure is not counted and the audio files that remain are never
    processed. *)
Theorem launch_failure_propagates (w : World) (args : Args)
    (video_files : list string) (output_dir : string) (total : nat) (start : Q)
    (audio : string) (rest : list string) (l : Locals) (σ : Machine) :
  video_files ≠ [] → total ≠ 0 →
  child w (exec_calls σ) (command (next_job w args video_files output_dir audio l σ))
  = NotLaunched →
  for_each (audio :: rest) (process w args video_files output_dir total start) l σ
  = (inl OSError, after_launch w args video_files output_dir total audio l σ).
Proof.
  intros Hv Htotal Hchild. simpl. unfold bind.
  by rewrite process_cases, Hchild.
Qed.

Lemma launch_failure_propagates_witness :
  let l := {| used_videos := ∅; combination_count := 1; successful := 0; failed := 1 |} in
  let σ := {| rng := [5; 1; 9; 2]%N; trace := []; time_calls := 2; now_calls := 1;
              exec_calls := 1 |} in
  let video_files := ["data/Video/a.mp4"; "data/Video/b.mp4"] in
  for_each ["data/Audio/spk_ganyu/y.wav"; "data/Audio/spk_ganyu/z.wav"]
    (process broken (parse_args plain) video_files "output/lipsync" 3 0%Q) l σ
  = (inl OSError,
     after_launch broken (parse_args plain) video_files "output/lipsync" 3
       "data/Audio/spk_ganyu/y.wav" l σ).
Proof.
  intros l σ video_files.
  apply launch_failure_propagates; [discriminate | discriminate | reflexivity].
Defined.

Example launch_failure_aborts_main :
  (main broken plain).1 = inl OSError
  ∧ length (get_audio_files broken "data/Audio/spk_ganyu") = 3
  ∧ length (jobs (trace (main broken plain).2)) = 2
  ∧ printed (trace (main broken plain).2) !! 8
    = Some (PError "a_x_20240517_120000.mp4" "no such module")
  ∧ printed (trace (main broken plain).2) !! 10 = Some (PCounts 0 1)
  ∧ is_exec <$> last (trace (main broken plain).2)
    = Some (Some (job_at broken (parse_args plain) "output/lipsync" 1
                    "data/Video/b.mp4" "data/Audio/spk_ganyu/y.wav" 2)).
Proof. vm_compute. done. Qed.

(** ** Output file names *)

Lemma append_assoc s t u : (s +:+ t) +:+ u = s +:+ t +:+ u.
Proof. induction s as [|a s IH]; [done|]. by rewrite !app_String, IH. Qed.

(** Two concatenations that agree and whose right parts have the same
    length agree part by part. *)
Lemma append_inj_length s1 s2 t1 t2 :
  s1 +:+ t1 = s2 +:+ t2 → String.length t1 = String.length t2 →
  s1 = s2 ∧ t1 = t2.
Proof.
  revert s2. induction s1 as [|a s1 IH]; intros [|b s2] Heq Hlen.
  - done.
  - rewrite app_empty_l in Heq. subst t1.
    rewrite app_String in Hlen. simpl in Hlen. rewrite length_append in Hlen. lia.
  - rewrite app_empty_l in Heq. subst t2.
    rewrite app_String in Hlen. simpl in Hlen. rewrite length_append in Hlen. lia.
  - rewrite !app_String in Heq. injection Heq as -> Heq.
    destruct (IH s2 Heq Hlen) as [-> ->]. done.
Qed.

Lemma length_zero_padded width n acc :
  String.length (zero_padded width n acc) = width + String.length acc.
Proof.
  revert n acc. induction width as [|width IH]; intros n acc; simpl; [done|].
  rewrite IH. simpl. lia.
Qed.

Lemma length_strftime d : String.length (strftime d) = 15.
Proof. unfold strftime. by rewrite !length_zero_padded. Qed.

(** Names made at different timestamps differ. *)
Lemma output_filename_timestamp w i k v1 a1 v2 a2 :
  output_filename w i v1 a1 = output_filename w k v2 a2 →
  strftime (now_reading w i) = strftime (now_reading w k).
Proof.
  unfold output_filename. intros Heq.
  rewrite <-!(append_assoc _ "_" (Path.stem _ +:+ _)) in Heq.
  rewrite <-!(append_assoc _ (Path.stem _) ("_" +:+ _)) in Heq.
  rewrite <-!(append_assoc _ "_" (strftime _ +:+ _)) in Heq.
  apply append_inj_length in Heq as [_ Heq].
  - by apply append_inj_length in Heq as [Heq _].
  - by rewrite !length_append, !length_strftime.
Qed.

(** ** The jobs of a run are a prefix of its plan *)

Lemma length_plan w args vf out audios used g k :
  length (plan w args vf out audios used g k) = length audios.
Proof.
  revert used g k. induction audios as [|a r IH]; intros; simpl; [done|].
  by rewrite IH.
Qed.

Lemma loop_jobs_planned w args vf out total start audios :
  vf ≠ [] → total ≠ 0 →
  ∀ σ, jobs (trace σ) = [] →
  let full := plan w args vf out audios ∅ (rng σ) (now_calls σ) in
  match for_each audios (process w args vf out total start) fresh σ with
  | (inr _, σ') => jobs (trace σ') = full
  | (inl _, σ') => jobs (trace σ') `prefix_of` full
  end.
Proof.
  intros Hv Htotal σ Hnone full.
  pose proof (loop_rule w args vf Hv out total start
    (λ i l σ', jobs (trace σ') = take i full
               ∧ plan w args vf out (drop i audios) (used_videos l) (rng σ') (now_calls σ')
                 = drop i full)
    (λ σ', jobs (trace σ') `prefix_of` full) audios Htotal) as Hloop.
  match type of Hloop with ?P → _ => assert P as Hpass end.
  { intros i audio l σ' Hi [Hj Hplan].
    rewrite (drop_S _ _ _ Hi) in Hplan. simpl in Hplan.
    assert (full !! i = Some (next_job w args vf out audio l σ')) as Hfull.
    { rewrite <-(Nat.add_0_r i), <-lookup_drop, <-Hplan. done. }
    rewrite (drop_S _ _ _ Hfull) in Hplan. injection Hplan as Hplan.
    destruct (child w (exec_calls σ') _) as [rc err|].
    - rewrite jobs_after_exit, Hj. split; [by rewrite (take_S_r _ _ _ Hfull)|done].
    - rewrite jobs_after_launch, Hj, <-(take_S_r _ _ _ Hfull). apply prefix_take. }
  assert (jobs (trace σ) = take 0 full
          ∧ plan w args vf out (drop 0 audios) (used_videos fresh) (rng σ) (now_calls σ)
            = drop 0 full) as Hstart by done.
  specialize (Hloop Hpass fresh σ Hstart).
  destruct (for_each audios _ fresh σ) as [[e|l] σ'].
  - by destruct Hloop.
  - destruct Hloop as [-> _]. apply take_ge. unfold full. by rewrite length_plan.
Qed.

Lemma final_summary_jobs w out start l σ :
  jobs (trace (final_summary w out start l σ).2) = jobs (trace σ).
Proof.
  unfold final_summary, bind, time_time, print, emit, truediv, raise, ret.
  cbn [rng trace time_calls now_calls exec_calls fst snd].
  destruct (Qeq_bool (Qnat (combination_count l)) 0);
    cbn [rng trace time_calls now_calls exec_calls fst snd];
    rewrite ?jobs_app; simpl; by rewrite ?app_nil_r.
Qed.

Lemma jobs_planned w args :
  jobs (trace (run w args (boot w)).2) `prefix_of` planned w args
  ∧ ((run w args (boot w)).1 = inr tt → jobs (trace (run w args (boot w)).2) = planned w args).
Proof.
  unfold planned.
  destruct (decide (get_video_files w (video_dir args) = []
                    ∨ get_audio_files w (audio_dir args) = [])) as [Hempty|Hfull].
  { by rewrite run_no_input. }
  assert (get_video_files w (video_dir args) ≠ []) as Hv by (intros ?; apply Hfull; by left).
  assert (get_audio_files w (audio_dir args) ≠ []) as Ha by (intros ?; apply Hfull; by right).
  destruct (negative (max_combinations args)) eqn:Hneg.
  { by rewrite run_negative. }
  rewrite run_loop by done. cbv zeta.
  destruct (length_to_process args _ (first_tape w args) Ha Hneg) as [_ Hpos].
  set (tp := to_process args _ _) in *.
  set (σ1 := {| rng := tp.2; trace := _; time_calls := 1; now_calls := 0; exec_calls := 0 |}).
  pose proof (loop_jobs_planned w args _ (output_dir args) (length tp.1)
                (time_reading w 0) tp.1 Hv ltac:(lia) σ1 eq_refl) as Hloop.
  cbv zeta in Hloop. cbn [rng now_calls σ1] in Hloop.
  unfold bind. destruct (for_each tp.1 _ fresh σ1) as [[e|l] σ'] eqn:Hfor.
  - split; [done|]. simpl. discriminate.
  - rewrite final_summary_jobs, Hloop. done.
Qed.

Lemma plan_lookup w args vf out audios used g k0 k j :
  plan w args vf out audios used g k0 !! k = Some j →
  ∃ video seed audio,
    audios !! k = Some audio ∧ j = job_at w args out (k0 + k) video audio seed.
Proof.
  revert used g k0 k. induction audios as [|a r IH]; intros used g k0 k; [done|].
  destruct k as [|k]; simpl.
  - intros [= <-]. eexists _, _, a. rewrite Nat.add_0_r. done.
  - intros Hj. apply IH in Hj as (v & s & a' & Ha' & ->).
    exists v, s, a'. split; [done|]. f_equal. lia.
Qed.

Lemma planned_lookup w args k j :
  planned w args !! k = Some j →
  ∃ video seed audio, j = job_at w args (output_dir args) k video audio seed.
Proof.
  unfold planned. repeat case_match; try done.
  intros (v & s & a & _ & ->)%plan_lookup. by exists v, s, a.
Qed.

(** C5, as the script has it: the name of an output file is made of the stem
    of the video, the stem of the audio file and the timestamp read in the
    pass, to the second; two jobs of a run whose timestamps differ have
    different output paths. *)
Theorem output_names_differ_across_seconds (w : World) (args : Args)
    (i k : nat) (ji jk : JobSpec) :
  jobs (trace (run w args (boot w)).2) !! i = Some ji →
  jobs (trace (run w args (boot w)).2) !! k = Some jk →
  strftime (now_reading w i) ≠ strftime (now_reading w k) →
  job_output_path ji
  = Path.joinpath (output_dir args)
      (Path.stem (job_video_path ji) +:+ "_" +:+ Path.stem (job_audio_path ji) +:+ "_"
         +:+ strftime (now_reading w i) +:+ ".mp4")
  ∧ job_output_path ji ≠ job_output_path jk.
Proof.
  intros Hi Hk Hts. destruct (jobs_planned w args) as [Hpre _].
  apply (prefix_lookup_Some _ _ _ _ Hi) in Hpre as Hi'.
  apply (prefix_lookup_Some _ _ _ _ Hk) in Hpre as Hk'.
  apply planned_lookup in Hi' as (vi & si & ai & ->).
  apply planned_lookup in Hk' as (vk & sk & ak & ->).
  split; [done|]. simpl. unfold Path.joinpath. intros Heq.
  apply (inj (String.app _)), (inj (String.app _)) in Heq.
  by apply output_filename_timestamp in Heq.
Qed.

Lemma output_names_differ_across_seconds_witness :
  ∃ ji jk,
    jobs (trace (main calm plain).2) !! 0 = Some ji
    ∧ jobs (trace (main calm plain).2) !! 2 = Some jk
    ∧ job_output_path ji = "output/lipsync/a_x_20240517_120000.mp4"
    ∧ job_output_path ji ≠ job_output_path jk.
Proof.
  eexists _, _. split; [vm_compute; reflexivity|]. split; [vm_compute; reflexivity|].
  split; [vm_compute; reflexivity|].
  refine (proj2 (output_names_differ_across_seconds calm (parse_args plain) 0 2 _ _ _ _ _)).
  - vm_compute. reflexivity.
  - vm_compute. reflexivity.
  - vm_compute. discriminate.
Defined.

(** Uniqueness within a run fails: two jobs of one run, planned within the
    same second, are given the same output path. *)
Lemma output_names_collide :
  ¬ NoDup (job_output_path <$> jobs (trace (main hasty plain).2)).
Proof.
  assert (job_output_path <$> jobs (trace (main hasty plain).2)
          = [ "output/lipsync/a_b_c_20240517_120000.mp4";
              "output/lipsync/a_b_c_20240517_120000.mp4" ]) as ->
    by (vm_compute; reflexivity).
  intros [Hnotin _]%NoDup_cons. apply Hnotin. by left.
Qed.

(** ** Seeds *)








(** A run that found input and returns has launched one job for each of
    the [min(len(audio_files), max_combinations or ∞)] audio files it goes
    through. *)
Lemma returned_count w args :
  (run w args (boot w)).1 = inr tt →
  get_video_files w (video_dir args) ≠ [] →
  get_audio_files w (audio_dir args) ≠ [] →
  Z.of_nat (length (jobs (trace (run w args (boot w)).2)))
  = job_bound (get_audio_files w (audio_dir args)) (max_combinations args).
Proof.
  intros Hret Hv Ha. destruct (negative (max_combinations args)) eqn:Hneg.
  { by rewrite run_negative in Hret. }
  destruct (length_to_process args _ (first_tape w args) Ha Hneg) as [<- _].
  destruct (run_outcome w args Hv Ha Hneg)
    as [[Herr _]|(_ & l & pre & t & _ & _ & Hj & _)]; [congruence|].
  by rewrite Hj.
Qed.



(** ** The no-repeat policy *)

Lemma choice_index_lt x n : 0 < n → N.to_nat (x `mod` N.of_nat n)%N < n.
Proof.
  intros Hn. pose proof (N.mod_lt x (N.of_nat n) ltac:(lia)). lia.
Qed.

Lemma choice_elem_of (pool : list string) x :
  pool ≠ [] → pool !!! N.to_nat (x `mod` N.of_nat (length pool))%N ∈ pool.
Proof.
  intros Hne. apply list_elem_of_lookup_total_2, choice_index_lt.
  destruct pool; [done | simpl; lia].
Qed.

Lemma filter_not_in_empty (vf : list string) (used : gset string) :
  used = ∅ → filter (λ v, v ∉ used) vf = vf.
Proof.
  intros ->. induction vf as [|v vf IH]; [done|].
  rewrite filter_cons_True by set_solver. by rewrite IH.
Qed.

(** With repeats allowed the choice is made in the whole list and nothing
    is recorded. *)
Lemma pick_repeat vf used x :
  pick true vf used x = ([], vf !!! N.to_nat (x `mod` N.of_nat (length vf))%N, used).
Proof. done. Qed.

(** Without repeats, from a set that holds the selections of the open
    cycle: the video is new to the cycle, or the cycle is closed first,
    which happens when it holds as many videos as the list. *)
Lemma pick_no_repeat vf (cyc : list string) x :
  vf ≠ [] → NoDup cyc → (∀ v, v ∈ cyc → v ∈ vf) →
  let p := pick false vf (list_to_set cyc) x in
  p.1.2 ∈ vf
  ∧ ((p.1.1 = [] ∧ ¬ p.1.2 ∈ cyc ∧ p.2 = list_to_set (cyc ++ [p.1.2])
      ∧ length cyc < length vf)
     ∨ (p.1.1 = [PWarnAllUsed] ∧ length cyc = length vf ∧ p.2 = list_to_set [p.1.2])
     ∨ (p.1.1 = [PWarnNoUnique] ∧ ¬ NoDup vf ∧ p.2 = list_to_set [p.1.2])).
Proof.
  intros Hvf Hnd Hsub. unfold pick. cbn [negb andb].
  rewrite (size_list_to_set cyc Hnd).
  assert (length cyc ≤ length vf) as Hle.
  { apply submseteq_length, NoDup_submseteq; done. }
  destruct (bool_decide (length vf ≤ length cyc)) eqn:Hfull; cbv iota beta zeta.
  - apply bool_decide_eq_true in Hfull. rewrite (filter_not_in_empty vf ∅ eq_refl).
    rewrite bool_decide_eq_false_2 by done. cbn [fst snd app].
    split; [by apply choice_elem_of|]. right. left.
    split; [done|]. split; [lia|]. set_solver.
  - apply bool_decide_eq_false in Hfull.
    set (available := filter (λ v, v ∉ (list_to_set cyc : gset string)) vf).
    destruct (decide (available = [])) as [Hnone|Hsome].
    + rewrite bool_decide_eq_true_2 by done. cbn [fst snd app].
      split; [by apply choice_elem_of|]. right. right.
      split; [done|]. split; [|set_solver].
      intros Hndvf. apply Hfull.
      apply submseteq_length, NoDup_submseteq; [done|].
      intros v Hv. destruct (decide (v ∈ cyc)) as [|Hnot]; [done|].
      exfalso. eapply (filter_nil_not_elem_of _ _ v Hnone); [|done]. set_solver.
    + rewrite bool_decide_eq_false_2 by done. cbn [fst snd app].
      pose proof (choice_elem_of available x Hsome) as Hin.
      apply list_elem_of_filter in Hin as [Hnot Hin].
      split; [done|]. left. split; [done|].
      split; [by rewrite elem_of_list_to_set in Hnot|].
      split; [|lia]. rewrite list_to_set_snoc_L. apply (comm_L _).
Qed.

Lemma cycles_app t1 t2 : cycles (t1 ++ t2) = fold_left cycle_step t2 (cycles t1).
Proof. apply fold_left_app. Qed.

Lemma cycle_announce c total count j :
  fold_left cycle_step (announce total count j) c = (c.1, c.2 ++ [job_video_path j]).
Proof. done. Qed.

Lemma cycle_report c total count s f elapsed j rc err :
  fold_left cycle_step (report total count s f elapsed j rc err) c = c.
Proof. unfold report. simpl. by destruct (decide (rc = 0%Z)), c. Qed.

Section cycle_of_pass.
Context (w : World) (args : Args) (video_files : list string) (output_dir : string)
  (total : nat) (start : Q) (audio : string) (l : Locals) (σ : Machine).

Let p := next_pick args video_files l σ.
Let c := fold_left cycle_step (Print <$> p.1.1) (cycles (trace σ)).

Lemma cycles_after_launch :
  cycles (trace (after_launch w args video_files output_dir total audio l σ))
  = (c.1, c.2 ++ [p.1.2]).
Proof.
  unfold after_launch. cbn [trace]. by rewrite cycles_app, fold_left_app, cycle_announce.
Qed.

Lemma cycles_after_exit rc err :
  cycles (trace (after_exit w args video_files output_dir total start audio l σ rc err))
  = (c.1, c.2 ++ [p.1.2]).
Proof.
  unfold after_exit. cbn [trace].
  by rewrite cycles_app, cycle_report, cycles_after_launch.
Qed.

End cycle_of_pass.

Lemma final_summary_cycles w out start l σ :
  cycles (trace (final_summary w out start l σ).2) = cycles (trace σ).
Proof.
  unfold final_summary, bind, time_time, print, emit, truediv, raise, ret.
  cbn [rng trace time_calls now_calls exec_calls fst snd].
  destruct (Qeq_bool (Qnat (combination_count l)) 0);
    cbn [rng trace time_calls now_calls exec_calls fst snd];
    rewrite ?cycles_app; simpl; by destruct (cycles (trace σ)).
Qed.

Lemma tidy_step vf (c : list (list string) * list string) x :
  vf ≠ [] → tidy vf c →
  let p := pick false vf (list_to_set c.2) x in
  let c' := fold_left cycle_step (Print <$> p.1.1) c in
  tidy vf (c'.1, c'.2 ++ [p.1.2]) ∧ p.2 = list_to_set (c'.2 ++ [p.1.2]).
Proof.
  intros Hvf (Hnd & Hsub & Hclosed & Hlen) p c'.
  destruct (pick_no_repeat vf c.2 x Hvf Hnd Hsub)
    as (Hin & [(Hws & Hnew & Hused & _)|[(Hws & Hfull & Hused)|(Hws & Hdup & Hused)]]);
    fold p in Hin, Hws, Hused; subst c'; rewrite Hws; cbn [fmap list_fmap fold_left cycle_step fst snd app].
  - fold p in Hnew. split; [|done]. repeat split; cbn [fst snd]; try done.
    + apply NoDup_app. repeat split; [done| |apply NoDup_singleton].
      intros v Hv ->%list_elem_of_singleton. done.
    + intros v [Hv| ->%list_elem_of_singleton]%elem_of_app; auto.
  - split; [|done]. repeat split; cbn [fst snd]; try done.
    + apply NoDup_singleton.
    + by intros v ->%list_elem_of_singleton.
    + apply Forall_app. split; [done|]. by repeat constructor.
    + intros Hndvf. apply Forall_app. split; [auto|]. by repeat constructor.
  - split; [|done]. repeat split; cbn [fst snd]; try done.
    + apply NoDup_singleton.
    + by intros v ->%list_elem_of_singleton.
    + apply Forall_app. split; [done|]. by repeat constructor.
Qed.

Lemma loop_tidy w args vf out total start audios :
  vf ≠ [] → total ≠ 0 → allow_repeat_videos args = false →
  ∀ l σ, tidy vf (cycles (trace σ)) →
    used_videos l = list_to_set (cycles (trace σ)).2 →
    tidy vf (cycles (trace (for_each audios (process w args vf out total start) l σ).2)).
Proof.
  intros Hvf Htotal Hallow l σ Htidy Hused.
  pose proof (loop_rule w args vf Hvf out total start
    (λ _ l σ, tidy vf (cycles (trace σ))
              ∧ used_videos l = list_to_set (cycles (trace σ)).2)
    (λ σ, tidy vf (cycles (trace σ))) audios Htotal) as Hloop.
  match type of Hloop with ?P → _ => assert P as Hpass end.
  { intros i audio l' σ' _ [Ht Hu].
    pose proof (tidy_step vf (cycles (trace σ')) (hd 0%N (rng σ')) Hvf Ht) as Hstep.
    cbv zeta in Hstep. rewrite <-Hu, <-Hallow in Hstep.
    fold (next_pick args vf l' σ') in Hstep. destruct Hstep as [Ht' Hu'].
    destruct (child w (exec_calls σ') _) as [rc err|].
    - by rewrite cycles_after_exit.
    - by rewrite cycles_after_launch. }
  specialize (Hloop Hpass l σ (conj Htidy Hused)).
  destruct (for_each audios _ l σ) as [[e|l'] σ']; by destruct Hloop.
Qed.

Lemma select_video_after_all_used args vf (used : gset string) v :
  allow_repeat_videos args = false → length vf ≤ size used → v ∈ vf →
  ∃ σ, (select_video args vf used σ).1 = inr (v, {[v]})
       ∧ Print PWarnAllUsed ∈ trace (select_video args vf used σ).2.
Proof.
  intros Hallow Hfull [i Hi]%list_elem_of_lookup.
  assert (vf ≠ []) as Hvf by (by destruct vf).
  exists {| rng := [N.of_nat i]; trace := []; time_calls := 0; now_calls := 0;
            exec_calls := 0 |}.
  rewrite select_video_pick by done. cbn [fst snd rng trace hd].
  unfold pick. rewrite Hallow. cbn [negb andb].
  rewrite bool_decide_eq_true_2 by done.
  rewrite (filter_not_in_empty vf ∅ eq_refl).
  rewrite bool_decide_eq_false_2 by done. cbn [fst snd app fmap list_fmap].
  pose proof (lookup_lt_Some _ _ _ Hi) as Hlt.
  rewrite N.mod_small, Nat2N.id by lia.
  rewrite (list_lookup_total_correct _ _ _ Hi).
  split; [by rewrite (right_id_L ∅ (∪))|]. by left.
Qed.

(** C4: under the no-repeat policy no cycle of a run holds a video twice,
    neither the cycles that were closed by clearing [used_videos] nor the
    one still open, and every video of a cycle is one of the list.  When the
    list of [V] videos has no duplicates, every closed cycle holds exactly
    [V] selections and the open one at most [V].  Once [V] videos are in
    [used_videos] the next selection clears the set and can be any video
    of the list, the ones used before included. *)
Theorem no_repeat_within_cycle (w : World) (args : Args) :
  allow_repeat_videos args = false →
  NoDup (get_video_files w (video_dir args)) →
  Forall NoDup (cycles (trace (run w args (boot w)).2)).1
  ∧ NoDup (cycles (trace (run w args (boot w)).2)).2
  ∧ Forall (λ cyc, length cyc = length (get_video_files w (video_dir args)))
      (cycles (trace (run w args (boot w)).2)).1
  ∧ length (cycles (trace (run w args (boot w)).2)).2
    ≤ length (get_video_files w (video_dir args))
  ∧ ∀ used v,
      length (get_video_files w (video_dir args)) ≤ size used →
      v ∈ get_video_files w (video_dir args) →
      ∃ σ, (select_video args (get_video_files w (video_dir args)) used σ).1
           = inr (v, {[v]})
           ∧ Print PWarnAllUsed
             ∈ trace (select_video args (get_video_files w (video_dir args)) used σ).2.
Proof.
  intros Hallow Hndvf.
  assert (tidy (get_video_files w (video_dir args))
            (cycles (trace (run w args (boot w)).2))) as (Hopen & Hsub & Hclosed & Hlen).
  { destruct (decide (get_video_files w (video_dir args) = []
                      ∨ get_audio_files w (audio_dir args) = [])) as [Hempty|Hfull].
    { rewrite run_no_input by done. cbn [snd trace].
      assert (∀ m, cycles [Print PScanning; Print (PFoundVideos (Path.name <$>
                get_video_files w (video_dir args)));
                Print (PFoundAudios (Path.name <$> get_audio_files w (audio_dir args)));
                Print m] = (if no_input (Print m) then ([], []) else cycles [Print m]))
        as Hc by (by intros []).
      destruct (decide _); rewrite Hc; simpl;
        repeat split; try constructor; by intros ? ?%elem_of_nil. }
    assert (get_video_files w (video_dir args) ≠ []) as Hv
      by (intros ?; apply Hfull; by left).
    assert (get_audio_files w (audio_dir args) ≠ []) as Ha
      by (intros ?; apply Hfull; by right).
    destruct (negative (max_combinations args)) eqn:Hneg.
    { rewrite run_negative by done. cbn [snd trace]. unfold preamble.
      repeat split; simpl; try constructor; by intros ? ?%elem_of_nil. }
    rewrite run_loop by done. cbv zeta.
    destruct (length_to_process args _ (first_tape w args) Ha Hneg) as [_ Hpos].
    set (tp := to_process args _ _) in *.
    set (σ1 := {| rng := tp.2; trace := _; time_calls := 1; now_calls := 0;
                  exec_calls := 0 |}).
    assert (tidy (get_video_files w (video_dir args)) (cycles (trace σ1))) as Hstart.
    { repeat split; simpl; try constructor; by intros ? ?%elem_of_nil. }
    pose proof (loop_tidy w args _ (output_dir args) (length tp.1) (time_reading w 0)
                  tp.1 Hv ltac:(lia) Hallow fresh σ1 Hstart eq_refl) as Hloop.
    unfold bind. destruct (for_each tp.1 _ fresh σ1) as [[e|l] σ']; [done|].
    by rewrite final_summary_cycles. }
  split; [done|]. split; [done|]. split; [auto|]. split.
  - apply submseteq_length, NoDup_submseteq; done.
  - intros used v. by apply select_video_after_all_used.
Qed.

Lemma no_repeat_within_cycle_witness :
  Forall NoDup (cycles (trace (run calm strict (boot calm)).2)).1
  ∧ cycles (trace (run calm strict (boot calm)).2)
    = ([["data/Video/a.mp4"; "data/Video/b.mp4"]], ["data/Video/b.mp4"]).
Proof.
  split; [|vm_compute; reflexivity].
  apply (no_repeat_within_cycle calm strict); [reflexivity|].
  apply (bool_decide_unpack _). vm_compute. exact I.
Defined.


(** * Further properties of the script *)

(** ** Discovery does not depend on the order of the listing *)

Lemma sorted_of_Permutation l1 l2 : l1 ≡ₚ l2 → sorted l1 = sorted l2.
Proof.
  intros Hp. apply (StronglySorted_unique String.le).
  - apply sorted_StronglySorted.
  - apply sorted_StronglySorted.
  - by rewrite !sorted_Permutation.
Qed.

Lemma glob_Permutation w1 w2 dir ext entries1 entries2 :
  fs w1 dir = Some (Directory entries1) →
  fs w2 dir = Some (Directory entries2) →
  entries1 ≡ₚ entries2 →
  glob w1 dir ext ≡ₚ glob w2 dir ext.
Proof. intros H1 H2 Hp. unfold glob. rewrite H1, H2. by rewrite Hp. Qed.

(** X1: two listings of a directory that hold the same entries, in whatever
    order, give the same list of video files and the same list of audio
    files. *)
Theorem discovery_ignores_listing_order (w1 w2 : World) (dir : string)
    (entries1 entries2 : list string) :
  fs w1 dir = Some (Directory entries1) →
  fs w2 dir = Some (Directory entries2) →
  entries1 ≡ₚ entries2 →
  get_video_files w1 dir = get_video_files w2 dir
  ∧ get_audio_files w1 dir = get_audio_files w2 dir.
Proof.
  intros H1 H2 Hp. unfold get_video_files, get_audio_files, path_exists.
  rewrite H1, H2. simpl.
  split; apply sorted_of_Permutation; by eapply glob_Permutation.
Qed.

Lemma discovery_ignores_listing_order_witness :
  get_video_files calm "data/Video" = get_video_files shuffled "data/Video"
  ∧ get_audio_files calm "data/Video" = get_audio_files shuffled "data/Video".
Proof.
  apply (discovery_ignores_listing_order calm shuffled "data/Video"
           ["b.mp4"; "notes.txt"; "a.mp4"; "clip.MP4"]
           ["clip.MP4"; "a.mp4"; "notes.txt"; "b.mp4"]);
    [reflexivity | reflexivity |].
  apply (bool_decide_unpack _). vm_compute. exact I.
Defined.

(** ** Distinct entries give distinct paths *)

Lemma glob_NoDup w dir ext entries :
  fs w dir = Some (Directory entries) → NoDup entries → NoDup (glob w dir ext).
Proof.
  intros Hfs Hnd. unfold glob. rewrite Hfs.
  apply (NoDup_fmap_2 _), NoDup_filter, Hnd.
Qed.

(** X2: when the entries of a directory are pairwise different, as the
    names in a directory are, no path occurs twice in the list of video
    files nor in the list of audio files. *)
Theorem discovery_lists_each_file_once (w : World) (dir : string)
    (entries : list string) :
  fs w dir = Some (Directory entries) → NoDup entries →
  NoDup (get_video_files w dir) ∧ NoDup (get_audio_files w dir).
Proof.
  intros Hfs Hnd. unfold get_video_files, get_audio_files, path_exists.
  rewrite Hfs. simpl. rewrite !sorted_Permutation.
  split; by eapply glob_NoDup.
Qed.

Lemma discovery_lists_each_file_once_witness :
  NoDup (get_video_files calm "data/Video") ∧ NoDup (get_audio_files calm "data/Video").
Proof.
  apply (discovery_lists_each_file_once calm "data/Video"
           ["b.mp4"; "notes.txt"; "a.mp4"; "clip.MP4"]); [reflexivity|].
  apply (bool_decide_unpack _). vm_compute. exact I.
Defined.


(** ** A rule for whole runs *)

(** A run that found input and has no negative cap keeps, from its first
    pass to the summary, every invariant that its passes keep. *)
Lemma run_enters w args (I : nat → Locals → Machine → Prop) (E : Machine → Prop) :
  get_video_files w (video_dir args) ≠ [] →
  get_audio_files w (audio_dir args) ≠ [] →
  negative (max_combinations args) = false →
  (∀ i audio l σ, queue w args !! i = Some audio → I i l σ →
     match child w (exec_calls σ)
             (command (next_job w args (get_video_files w (video_dir args))
                         (output_dir args) audio l σ)) with
     | NotLaunched =>
         E (after_launch w args (get_video_files w (video_dir args)) (output_dir args)
              (length (queue w args)) audio l σ)
     | Exited rc err =>
         I (S i) (after_exit_locals args (get_video_files w (video_dir args)) l σ rc)
           (after_exit w args (get_video_files w (video_dir args)) (output_dir args)
              (length (queue w args)) (time_reading w 0) audio l σ rc err)
     end) →
  I 0 fresh (entry w args) →
  match run w args (boot w) with
  | (inl e, σ') => e = OSError ∧ E σ'
  | (inr _, σ') =>
      ∃ l σ, I (length (queue w args)) l σ
             ∧ combination_count l = length (queue w args)
             ∧ σ' = summed_up w args l σ
  end.
Proof.
  intros Hv Ha Hneg Hpass Hstart. rewrite run_loop by done. cbv zeta.
  destruct (length_to_process args _ (first_tape w args) Ha Hneg) as [_ Hpos].
  fold (queue w args) in Hpos |- *. fold (entry w args).
  pose proof (loop_rule w args _ Hv (output_dir args) (length (queue w args))
    (time_reading w 0) (λ i l σ, I i l σ ∧ combination_count l = i) E
    (queue w args) ltac:(lia)) as Hloop.
  match type of Hloop with ?P → _ => assert P as Hpass' end.
  { intros i audio l σ Hi [HI Hcc]. specialize (Hpass i audio l σ Hi HI).
    destruct (child w (exec_calls σ) _) as [rc err|]; [|done].
    split; [done|]. simpl. by rewrite Hcc. }
  specialize (Hloop Hpass' fresh (entry w args) (conj Hstart eq_refl)).
  unfold bind. destruct (for_each (queue w args) _ fresh (entry w args)) as [[e|l] σ'].
  - done.
  - destruct Hloop as [HI Hcc]. rewrite final_summary_unfold by lia.
    by exists l, σ'.
Qed.

(** The three ways a run goes. *)
Lemma run_ways w args :
  (get_video_files w (video_dir args) = [] ∨ get_audio_files w (audio_dir args) = [])
  ∨ (get_video_files w (video_dir args) ≠ [] ∧ get_audio_files w (audio_dir args) ≠ []
     ∧ negative (max_combinations args) = true)
  ∨ (get_video_files w (video_dir args) ≠ [] ∧ get_audio_files w (audio_dir args) ≠ []
     ∧ negative (max_combinations args) = false).
Proof.
  destruct (decide (get_video_files w (video_dir args) = [])); [by left; left|].
  destruct (decide (get_audio_files w (audio_dir args) = [])); [by left; right|].
  right. destruct (negative _); [by left | by right].
Qed.

Lemma planned_entered w args :
  get_video_files w (video_dir args) ≠ [] →
  get_audio_files w (audio_dir args) ≠ [] →
  negative (max_combinations args) = false →
  planned w args
  = plan w args (get_video_files w (video_dir args)) (output_dir args)
      (queue w args) ∅ (rng (entry w args)) 0.
Proof.
  intros Hv Ha Hneg. unfold planned. rewrite Hneg.
  destruct (decide _) as [[?|?]|_]; done.
Qed.

Lemma planned_not_entered w args :
  (get_video_files w (video_dir args) = [] ∨ get_audio_files w (audio_dir args) = [])
  ∨ negative (max_combinations args) = true →
  planned w args = [].
Proof.
  intros H. unfold planned. destruct (decide _); [done|].
  destruct H as [H| ->]; done.
Qed.

(** ** Book-keeping of a run *)

Lemma launches_snoc w js j :
  launches w (js ++ [j]) = launches w js ++ [child w (length js) (command j)].
Proof. unfold launches. rewrite imap_app. simpl. by rewrite Nat.add_0_r. Qed.

Lemma jobs_summed_up w args l σ : jobs (trace (summed_up w args l σ)) = jobs (trace σ).
Proof. unfold summed_up. cbn [trace]. by rewrite jobs_app, jobs_summary, app_nil_r. Qed.

(** A run that entered its loop stops at the first call of the tool that
    cannot be started; if there is none it launches its whole plan and
    counts the exits with status zero and the others. *)
Lemma run_books w args :
  get_video_files w (video_dir args) ≠ [] →
  get_audio_files w (audio_dir args) ≠ [] →
  negative (max_combinations args) = false →
  match run w args (boot w) with
  | (inl e, σ') => e = OSError ∧ ∃ i, launches w (planned w args) !! i = Some NotLaunched
  | (inr _, σ') =>
      ∃ l σ, σ' = summed_up w args l σ
             ∧ jobs (trace σ) = planned w args
             ∧ combination_count l = length (planned w args)
             ∧ successful l
               = length (filter (λ c, Is_true (succeeded c)) (launches w (planned w args)))
             ∧ failed l
               = length (filter (λ c, ¬ Is_true (succeeded c)) (launches w (planned w args)))
             ∧ Forall (λ c, c ≠ NotLaunched) (launches w (planned w args))
  end.
Proof.
  intros Hv Ha Hneg. rewrite (planned_entered w args Hv Ha Hneg).
  set (vf := get_video_files w (video_dir args)) in *.
  set (full := plan w args vf (output_dir args) (queue w args) ∅ (rng (entry w args)) 0).
  pose proof (run_enters w args
    (λ i l σ, exec_calls σ = i
              ∧ jobs (trace σ) = take i full
              ∧ plan w args vf (output_dir args) (drop i (queue w args))
                  (used_videos l) (rng σ) (now_calls σ) = drop i full
              ∧ successful l
                = length (filter (λ c, Is_true (succeeded c)) (launches w (take i full)))
              ∧ failed l
                = length (filter (λ c, ¬ Is_true (succeeded c)) (launches w (take i full)))
              ∧ Forall (λ c, c ≠ NotLaunched) (launches w (take i full)))
    (λ _, ∃ i, launches w full !! i = Some NotLaunched) Hv Ha Hneg) as Hrun.
  fold vf in Hrun.
  match type of Hrun with ?P → _ => assert P as Hpass end.
  { intros i audio l σ Hi (Hec & Hj & Hplan & Hs & Hf & Hall).
    rewrite (drop_S _ _ _ Hi) in Hplan. simpl in Hplan.
    assert (full !! i = Some (next_job w args vf (output_dir args) audio l σ)) as Hfull.
    { rewrite <-(Nat.add_0_r i), <-lookup_drop, <-Hplan. done. }
    rewrite (drop_S _ _ _ Hfull) in Hplan. injection Hplan as Hplan.
    pose proof (lookup_lt_Some _ _ _ Hfull) as Hlt.
    assert (launches w (take (S i) full)
            = launches w (take i full)
              ++ [child w i (command (next_job w args vf (output_dir args) audio l σ))])
      as Hsnoc.
    { rewrite (take_S_r _ _ _ Hfull), launches_snoc, length_take. do 3 f_equal. lia. }
    rewrite Hec.
    destruct (child w i _) as [rc err|] eqn:Hchild.
    - rewrite jobs_after_exit, Hj, Hsnoc, !filter_app, !length_app, Forall_app.
      cbn [exec_calls after_exit now_calls rng successful failed after_exit_locals].
      split; [lia|]. split; [by rewrite (take_S_r _ _ _ Hfull)|]. split; [done|].
      destruct (bool_decide (rc = 0%Z)) eqn:Hrc.
      + rewrite filter_cons_True by (simpl; by rewrite Hrc).
        rewrite filter_cons_False by (simpl; rewrite Hrc; intros Hno; by apply Hno).
        simpl. repeat split; try lia; try done. by apply Forall_singleton.
      + rewrite filter_cons_False by (simpl; rewrite Hrc; intros []).
        rewrite filter_cons_True by (simpl; rewrite Hrc; intros []).
        simpl. repeat split; try lia; try done. by apply Forall_singleton.
    - exists i. unfold launches. by rewrite list_lookup_imap, Hfull, <-Hchild. }
  assert (jobs (trace (entry w args)) = take 0 full) as Hstart by done.
  specialize (Hrun Hpass).
  match type of Hrun with ?P → _ => assert P as Hstart' end.
  { repeat split; try done; constructor. }
  specialize (Hrun Hstart').
  destruct (run w args (boot w)) as [[e|u] σ']; [done|].
  destruct Hrun as (l & σ & (Hec & Hj & _ & Hs & Hf & Hall) & Hcc & ->).
  assert (take (length (queue w args)) full = full) as Hfull.
  { apply take_ge. unfold full. by rewrite length_plan. }
  rewrite Hfull in *. exists l, σ. repeat split; try done.
  rewrite Hcc. unfold full. by rewrite length_plan.
Qed.

(** X3: a run that found input and returns has launched exactly
    [min(len(audio_files), max_combinations or ∞)] jobs, and every call of
    the tool for these jobs could be started. *)
Theorem returning_run_launched_every_job (w : World) (args : Args) :
  (run w args (boot w)).1 = inr tt →
  get_video_files w (video_dir args) ≠ [] →
  get_audio_files w (audio_dir args) ≠ [] →
  Z.of_nat (length (jobs (trace (run w args (boot w)).2)))
  = job_bound (get_audio_files w (audio_dir args)) (max_combinations args)
  ∧ Forall (λ c, c ≠ NotLaunched) (launches w (jobs (trace (run w args (boot w)).2))).
Proof.
  intros Hret Hv Ha. split; [by apply returned_count|].
  destruct (negative (max_combinations args)) eqn:Hneg.
  { by rewrite run_negative in Hret. }
  pose proof (run_books w args Hv Ha Hneg) as Hrun.
  destruct (run w args (boot w)) as [[e|[]] σ']; [done|].
  destruct Hrun as (l & σ & -> & Hj & _ & _ & _ & Hall).
  cbn [snd]. by rewrite jobs_summed_up, Hj.
Qed.

Lemma returning_run_launched_every_job_witness :
  length (jobs (trace (main calm (with_cap 2)).2)) = 2
  ∧ Forall (λ c, c ≠ NotLaunched)
      (launches calm (jobs (trace (main calm (with_cap 2)).2))).
Proof.
  destruct (returning_run_launched_every_job calm (parse_args (with_cap 2)))
    as [Hcount Hall].
  - vm_compute. reflexivity.
  - vm_compute. discriminate.
  - vm_compute. discriminate.
  - split; [|exact Hall]. apply Nat2Z.inj. etrans; [exact Hcount|].
    vm_compute. reflexivity.
Defined.

(** X4: the summary of a run that went through its loop and returned
    reports as successful the number of jobs whose tool exited with status
    zero, as failed the number of the others, and as processed the number
    of jobs launched. *)
Theorem summary_counts_exit_statuses (w : World) (args : Args) :
  get_video_files w (video_dir args) ≠ [] →
  get_audio_files w (audio_dir args) ≠ [] →
  negative (max_combinations args) = false →
  (run w args (boot w)).1 = inr tt →
  ∃ pre t l,
    trace (run w args (boot w)).2
    = pre ++ summary (output_dir args) (time_reading w 0) t l
    ∧ combination_count l = length (jobs (trace (run w args (boot w)).2))
    ∧ successful l
      = length (filter (λ c, Is_true (succeeded c))
                  (launches w (jobs (trace (run w args (boot w)).2))))
    ∧ failed l
      = length (filter (λ c, ¬ Is_true (succeeded c))
                  (launches w (jobs (trace (run w args (boot w)).2)))).
Proof.
  intros Hv Ha Hneg Hret. pose proof (run_books w args Hv Ha Hneg) as Hrun.
  destruct (run w args (boot w)) as [[e|[]] σ']; [done|].
  destruct Hrun as (l & σ & -> & Hj & Hcc & Hs & Hf & _).
  exists (trace σ), (time_reading w (time_calls σ)), l. cbn [snd].
  rewrite jobs_summed_up, Hj. done.
Qed.

Lemma summary_counts_exit_statuses_witness :
  ∃ pre t l,
    trace (main calm plain).2 = pre ++ summary "output/lipsync" (time_reading calm 0) t l
    ∧ combination_count l = 3 ∧ successful l = 2 ∧ failed l = 1.
Proof.
  destruct (summary_counts_exit_statuses calm (parse_args plain))
    as (pre & t & l & Ht & Hc & Hs & Hf).
  - vm_compute. discriminate.
  - vm_compute. discriminate.
  - reflexivity.
  - vm_compute. reflexivity.
  - exists pre, t, l. split; [exact Ht|].
    split; [rewrite Hc; vm_compute; reflexivity|].
    split; [rewrite Hs; vm_compute; reflexivity | rewrite Hf; vm_compute; reflexivity].
Defined.

(** X5: for every job of a run that went on after it, to a later job or to
    its return, and whose tool exited, the run printed the line of
    [run_inference] about it: the success line when the status is zero, and
    otherwise the error line that carries the standard error of that very
    call. *)
Theorem every_exit_is_reported (w : World) (args : Args) (k : nat) (j : JobSpec)
    (rc : Z) (err : string) :
  jobs (trace (run w args (boot w)).2) !! k = Some j →
  child w k (command j) = Exited rc err →
  is_Some (jobs (trace (run w args (boot w)).2) !! S k)
  ∨ (run w args (boot w)).1 = inr tt →
  Print (verdict j rc err) ∈ trace (run w args (boot w)).2.
Proof.
  intros Hjob Hexit _. revert Hjob Hexit.
  destruct (run_ways w args) as [Hempty|[(Hv & Ha & Hneg)|(Hv & Ha & Hneg)]].
  { by rewrite run_no_input. }
  { by rewrite run_negative. }
  pose (told := λ σ : Machine, ∀ k j rc err,
          jobs (trace σ) !! k = Some j → child w k (command j) = Exited rc err →
          Print (verdict j rc err) ∈ trace σ).
  pose proof (run_enters w args
    (λ _ _ σ, exec_calls σ = length (jobs (trace σ)) ∧ told σ)
    (λ σ, told σ) Hv Ha Hneg) as Hrun.
  match type of Hrun with ?P → _ => assert P as Hpass end.
  { intros i audio l σ _ [Hec Htold].
    destruct (child w (exec_calls σ) _) as [rc0 err0|] eqn:Hchild.
    - split.
      { rewrite jobs_after_exit, length_app. simpl. lia. }
      intros k' j' rc' err'. rewrite jobs_after_exit.
      unfold after_exit, after_launch. cbn [trace].
      intros [Hold|[Hk Hnew]]%lookup_app_Some Hc.
      + rewrite <-app_assoc. apply elem_of_app. left. by eapply Htold.
      + destruct (k' - length (jobs (trace σ))) as [|?] eqn:Hd; [|done].
        injection Hnew as <-. assert (k' = exec_calls σ) as -> by lia.
        rewrite Hchild in Hc. injection Hc as <- <-.
        apply elem_of_app. right. unfold report, verdict. by left.
    - intros k' j' rc' err'. rewrite jobs_after_launch.
      unfold after_launch. cbn [trace].
      intros [Hold|[Hk Hnew]]%lookup_app_Some Hc.
      + apply elem_of_app. left. by eapply Htold.
      + destruct (k' - length (jobs (trace σ))) as [|?] eqn:Hd; [|done].
        injection Hnew as <-. assert (k' = exec_calls σ) as -> by lia.
        rewrite Hchild in Hc. done. }
  specialize (Hrun Hpass).
  match type of Hrun with ?P → _ => assert P as Hstart end.
  { split; [done|]. by intros ? ? ? ?. }
  specialize (Hrun Hstart).
  destruct (run w args (boot w)) as [[e|u] σ']; cbn [snd].
  - destruct Hrun as [_ Htold]. apply Htold.
  - destruct Hrun as (l & σ & [_ Htold] & _ & ->). rewrite jobs_summed_up.
    intros Hj Hc. unfold summed_up. cbn [trace]. apply elem_of_app. left.
    by eapply Htold.
Qed.

Lemma every_exit_is_reported_witness :
  Print (PError "a_x_20240517_120000.mp4" "CUDA out of memory")
  ∈ trace (main calm plain).2.
Proof.
  apply (every_exit_is_reported calm (parse_args plain) 0
           (job_at calm (parse_args plain) "output/lipsync" 0
              "data/Video/a.mp4" "data/Audio/spk_ganyu/x.wav" 8)
           1 "CUDA out of memory").
  - vm_compute. reflexivity.
  - reflexivity.
  - left. vm_compute. by eexists.
Defined.

(** ** Which files the jobs use *)

Lemma pick_elem_of allow vf used x : vf ≠ [] → (pick allow vf used x).1.2 ∈ vf.
Proof.
  intros Hvf. unfold pick. destruct allow; cbn [fst snd].
  { by apply choice_elem_of. }
  set (available := filter _ vf).
  destruct (decide (available = [])) as [Hnone|Hsome].
  - rewrite bool_decide_eq_true_2 by done. by apply choice_elem_of.
  - rewrite bool_decide_eq_false_2 by done.
    pose proof (choice_elem_of available x Hsome) as Hin.
    by apply list_elem_of_filter in Hin as [_ Hin].
Qed.

Lemma plan_videos w args vf out audios used g k :
  vf ≠ [] → Forall (λ j, job_video_path j ∈ vf) (plan w args vf out audios used g k).
Proof.
  intros Hvf. revert used g k. induction audios as [|a r IH]; intros; simpl.
  - constructor.
  - constructor; [|apply IH]. simpl. by apply pick_elem_of.
Qed.

Lemma plan_audios w args vf out audios used g k :
  job_audio_path <$> plan w args vf out audios used g k = audios.
Proof.
  revert used g k. induction audios as [|a r IH]; intros; simpl; [done|].
  by rewrite IH.
Qed.

(** Taking an element out of a list and putting another in its place
    leaves what the list held, up to the two. *)
Lemma insert_pick_Permutation (l : list string) j y :
  j < length l → l !!! j :: <[j := y]> l ≡ₚ l ++ [y].
Proof.
  revert j. induction l as [|a l IH]; intros [|j] Hj; simpl in *; try lia.
  - f_equiv. apply Permutation_cons_append.
  - rewrite Permutation_swap. f_equiv. apply IH. lia.
Qed.

(** [random.sample] draws without replacement: its picks are taken from
    the live part of the pool, each position at most once. *)
Lemma sample_picks_submseteq n k i pool g :
  i + k ≤ n → n ≤ length pool →
  sample_picks n i k pool g ⊆+ take (n - i) pool.
Proof.
  revert i pool g. induction k as [|k IH]; intros i pool g Hik Hn; simpl.
  { apply submseteq_nil_l. }
  set (j := N.to_nat (hd 0%N g `mod` N.of_nat (n - i))%N).
  assert (j < n - i) as Hj by (apply choice_index_lt; lia).
  set (m := n - i - 1).
  assert (pool !! m = Some (pool !!! m)) as Hm
    by (apply list_lookup_lookup_total_lt; lia).
  replace (n - i) with (S m) by lia. rewrite (take_S_r _ _ _ Hm).
  specialize (IH (S i) (<[j := pool !!! m]> pool) (tail g)
                ltac:(lia) ltac:(rewrite length_insert; lia)).
  replace (n - S i) with m in IH by lia.
  destruct (decide (j < m)) as [Hlt|Hge].
  - rewrite take_insert_lt in IH by done.
    rewrite <-(insert_pick_Permutation (take m pool) j (pool !!! m))
      by (rewrite length_take; lia).
    rewrite lookup_total_take_lt by done. by apply submseteq_skip.
  - rewrite take_insert_ge in IH by lia.
    assert (j = m) as -> by lia.
    rewrite <-Permutation_cons_append. by apply submseteq_skip.
Qed.

Lemma to_process_submseteq args af g : (to_process args af g).1 ⊆+ af.
Proof.
  unfold to_process. destruct (samples args af) eqn:Hs; [|done]. cbn [fst].
  unfold samples in Hs. apply andb_true_iff in Hs as [_ Hlt%bool_decide_eq_true].
  pose proof (sample_picks_submseteq (length af) 
                (Z.to_nat (default 0%Z (max_combinations args))) 0 af g
                ltac:(lia) ltac:(lia)) as Hsub.
  by rewrite Nat.sub_0_r, firstn_all in Hsub.
Qed.

Lemma planned_audios w args :
  job_audio_path <$> planned w args ⊆+ get_audio_files w (audio_dir args).
Proof.
  unfold planned. repeat case_match; try apply submseteq_nil_l.
  rewrite plan_audios. apply to_process_submseteq.
Qed.

Lemma planned_videos w args :
  Forall (λ j, job_video_path j ∈ get_video_files w (video_dir args)) (planned w args).
Proof.
  unfold planned. repeat case_match; try constructor.
  apply plan_videos. intros Hvf. by destruct n; left.
Qed.

(** X6: the video of every job of a run is one of the discovered video
    files, under either policy. *)
Theorem every_job_uses_a_discovered_video (w : World) (args : Args) :
  Forall (λ j, job_video_path j ∈ get_video_files w (video_dir args))
    (jobs (trace (run w args (boot w)).2)).
Proof.
  destruct (jobs_planned w args) as [[rest Hrest] _].
  pose proof (planned_videos w args) as Hall.
  rewrite Hrest in Hall. by apply Forall_app in Hall as [Hall _].
Qed.

(** X7: the audio files of the jobs of a run are audio files of the
    discovered list, none of them taken more often than the list holds it:
    a run never processes an audio file twice. *)
Theorem no_audio_file_is_processed_twice (w : World) (args : Args) :
  job_audio_path <$> jobs (trace (run w args (boot w)).2)
  ⊆+ get_audio_files w (audio_dir args).
Proof.
  destruct (jobs_planned w args) as [[rest Hrest] _].
  rewrite <-(planned_audios w args), Hrest, fmap_app.
  by apply submseteq_inserts_r.
Qed.

(** X8: when the cap is unset, zero, or not below the number of audio
    files, a run that found videos and returns has launched one job per
    discovered audio file, in the sorted order of discovery. *)
Theorem uncapped_run_covers_every_audio_file (w : World) (args : Args) :
  (∀ c, max_combinations args = Some c →
        c = 0%Z ∨ (Z.of_nat (length (get_audio_files w (audio_dir args))) ≤ c)%Z) →
  get_video_files w (video_dir args) ≠ [] →
  (run w args (boot w)).1 = inr tt →
  job_audio_path <$> jobs (trace (run w args (boot w)).2)
  = get_audio_files w (audio_dir args).
Proof.
  intros Hcap Hv Hret. destruct (jobs_planned w args) as [_ Hall].
  rewrite (Hall Hret).
  destruct (run_ways w args) as [[?|Hempty]|[(_ & Ha & Hneg)|(_ & Ha & Hneg)]];
    [done| | |].
  - rewrite planned_not_entered by auto. by rewrite Hempty.
  - rewrite run_negative in Hret by done. done.
  - rewrite planned_entered, plan_audios by done. unfold queue, to_process.
    assert (samples args (get_audio_files w (audio_dir args)) = false) as ->; [|done].
    unfold samples. destruct (max_combinations args) as [c|]; [|done].
    destruct (Hcap c eq_refl) as [->|Hle]; [done|]. simpl.
    rewrite bool_decide_eq_false_2 by lia. apply andb_false_r.
Qed.

Lemma uncapped_run_covers_every_audio_file_witness :
  job_audio_path <$> jobs (trace (main calm (with_cap 0)).2)
  = get_audio_files calm "data/Audio/spk_ganyu".
Proof.
  apply (uncapped_run_covers_every_audio_file calm (parse_args (with_cap 0))).
  - intros c [= <-]. by left.
  - vm_compute. discriminate.
  - vm_compute. reflexivity.
Defined.


(** ** Full cycles of the no-repeat policy *)

(** Cutting the selections into cycles loses none and adds none. *)
Lemma cycle_fold_concat t c :
  concat (fold_left cycle_step t c).1 ++ (fold_left cycle_step t c).2
  = concat c.1 ++ c.2 ++ (job_video_path <$> jobs t).
Proof.
  revert c. induction t as [|e t IH]; intros c; simpl.
  { by rewrite app_nil_r. }
  rewrite IH. unfold jobs. destruct e as [[]| |j]; simpl;
    rewrite ?concat_app, <-?app_assoc; simpl; by rewrite ?app_nil_r.
Qed.

Lemma cycles_concat t :
  concat (cycles t).1 ++ (cycles t).2 = job_video_path <$> jobs t.
Proof. unfold cycles. by rewrite cycle_fold_concat. Qed.

Lemma run_tidy w args :
  allow_repeat_videos args = false →
  tidy (get_video_files w (video_dir args)) (cycles (trace (run w args (boot w)).2)).
Proof.
  intros Hallow.
  assert (tidy (get_video_files w (video_dir args)) ([], [])) as Hnil.
  { repeat split; simpl; try constructor; by intros ? ?%elem_of_nil. }
  destruct (run_ways w args) as [Hempty|[(Hv & Ha & Hneg)|(Hv & Ha & Hneg)]].
  { rewrite run_no_input by done. cbn [snd trace]. by destruct (decide _). }
  { by rewrite run_negative. }
  pose proof (run_enters w args
    (λ _ l σ, tidy (get_video_files w (video_dir args)) (cycles (trace σ))
              ∧ used_videos l = list_to_set (cycles (trace σ)).2)
    (λ σ, tidy (get_video_files w (video_dir args)) (cycles (trace σ)))
    Hv Ha Hneg) as Hrun.
  match type of Hrun with ?P → _ => assert P as Hpass end.
  { intros i audio l σ _ [Ht Hu].
    pose proof (tidy_step _ (cycles (trace σ)) (hd 0%N (rng σ)) Hv Ht) as Hstep.
    cbv zeta in Hstep. rewrite <-Hu, <-Hallow in Hstep.
    fold (next_pick args (get_video_files w (video_dir args)) l σ) in Hstep.
    destruct Hstep as [Ht' Hu'].
    destruct (child w (exec_calls σ) _) as [rc err|].
    - by rewrite cycles_after_exit.
    - by rewrite cycles_after_launch. }
  specialize (Hrun Hpass (conj Hnil eq_refl)).
  destruct (run w args (boot w)) as [[e|u] σ']; cbn [snd].
  - by destruct Hrun.
  - destruct Hrun as (l & σ & [Ht _] & _ & ->). unfold summed_up. cbn [trace].
    rewrite cycles_app. unfold summary. simpl. by destruct (cycles (trace σ)).
Qed.

(** X9: under the no-repeat policy and with a list of videos that has no
    duplicates, every cycle that a run has closed is a rearrangement of the
    whole list: between two resets each video is used exactly once. *)
Theorem closed_cycles_use_each_video_once (w : World) (args : Args) :
  allow_repeat_videos args = false →
  NoDup (get_video_files w (video_dir args)) →
  Forall (λ cyc, cyc ≡ₚ get_video_files w (video_dir args))
    (cycles (trace (run w args (boot w)).2)).1.
Proof.
  intros Hallow Hndvf.
  destruct (run_tidy w args Hallow) as (_ & _ & Hnd & Hlen).
  specialize (Hlen Hndvf).
  destruct (jobs_planned w args) as [[rest Hrest] _].
  pose proof (planned_videos w args) as Hvideos.
  rewrite Hrest in Hvideos. apply Forall_app in Hvideos as [Hvideos _].
  apply Forall_forall. intros cyc Hcyc.
  apply submseteq_length_Permutation.
  - apply NoDup_submseteq; [by eapply Forall_forall in Hnd|].
    intros v Hv.
    assert (v ∈ job_video_path <$> jobs (trace (run w args (boot w)).2)) as Hin.
    { rewrite <-cycles_concat. apply elem_of_app. left.
      apply list_elem_of_In, in_concat. exists cyc.
      split; by apply list_elem_of_In. }
    apply list_elem_of_fmap in Hin as (j & -> & Hj).
    by eapply Forall_forall in Hvideos.
  - eapply Forall_forall in Hlen; [|done]. simpl in Hlen. lia.
Qed.

Lemma closed_cycles_use_each_video_once_witness :
  Forall (λ cyc, cyc ≡ₚ ["data/Video/a.mp4"; "data/Video/b.mp4"])
    (cycles (trace (run calm strict (boot calm)).2)).1.
Proof.
  apply (closed_cycles_use_each_video_once calm strict); [reflexivity|].
  apply (bool_decide_unpack _). vm_compute. exact I.
Defined.

(** ** What the tool is called with *)

(** X10: every command a run launches is the module call followed by the
    eight options in their order, with the configuration, checkpoint, step
    count and guidance scale of the run passed through unchanged, the paths
    and the seed of the job, and the acceleration switch last when it is
    enabled. *)
Theorem every_command_passes_the_arguments_through (w : World) (args : Args) :
  Forall (λ j,
      command j
      = [ "python"; "-m"; "scripts.inference";
          "--unet_config_path"; config_path args;
          "--inference_ckpt_path"; ckpt_path args;
          "--video_path"; job_video_path j;
          "--audio_path"; job_audio_path j;
          "--video_out_path"; job_output_path j;
          "--inference_steps"; str (inference_steps args);
          "--guidance_scale"; guidance_scale args;
          "--seed"; str (job_seed j) ]
        ++ (if enable_deepcache args then ["--enable_deepcache"] else []))
    (jobs (trace (run w args (boot w)).2)).
Proof.
  destruct (jobs_planned w args) as [Hpre _].
  apply Forall_lookup. intros k j Hj.
  apply (prefix_lookup_Some _ _ _ _ Hj) in Hpre.
  by apply planned_lookup in Hpre as (v & s & a & ->).
Qed.

(** X11: the acceleration switch cannot be turned off: whatever the command
    line, every command that [main] launches has twenty words and ends with
    [--enable_deepcache]. *)
Theorem deepcache_is_always_enabled (w : World) (cl : CommandLine) :
  enable_deepcache (parse_args cl) = true
  ∧ Forall (λ j, length (command j) = 20
                 ∧ last (command j) = Some "--enable_deepcache")
      (jobs (trace (main w cl).2)).
Proof.
  assert (enable_deepcache (parse_args cl) = true) as Hon.
  { simpl. by destruct (cl_enable_deepcache cl). }
  split; [done|]. unfold main.
  destruct (jobs_planned w (parse_args cl)) as [Hpre _].
  apply Forall_lookup. intros k j Hj.
  apply (prefix_lookup_Some _ _ _ _ Hj) in Hpre.
  apply planned_lookup in Hpre as (v & s & a & ->).
  unfold command. cbn [job_enable_deepcache job_at]. by rewrite Hon.
Qed.

(** ** Names of discovered files *)

Lemma rfind_app_Some c s t i :
  Str.rfind c t = Some i → Str.rfind c (s +:+ t) = Some (String.length s + i).
Proof.
  intros Ht. induction s as [|a s IH]; [done|].
  rewrite app_String. simpl. by rewrite IH.
Qed.

Lemma rfind_app_None c s t :
  Str.rfind c s = None → Str.rfind c t = None → Str.rfind c (s +:+ t) = None.
Proof.
  intros Hs Ht. induction s as [|a s IH]; [done|].
  rewrite app_String. simpl in *.
  destruct (Str.rfind c s); [done|]. rewrite IH by done.
  by destruct (decide (a = c)).
Qed.

Lemma take_append s t : Str.take (String.length s) (s +:+ t) = s.
Proof.
  induction s as [|a s IH]; [by destruct t|]. rewrite app_String. simpl. by rewrite IH.
Qed.

Lemma drop_append s t : Str.drop (String.length s) (s +:+ t) = t.
Proof. rewrite <-(Nat.add_0_r (String.length s)). apply drop_app. Qed.

(** The final component of a path made of a directory and an entry. *)
Lemma name_joinpath dir n :
  Str.rfind "/"%char n = None → Path.name (Path.joinpath dir n) = n.
Proof.
  intros Hn. unfold Path.name, Path.joinpath.
  assert (Str.rfind "/"%char ("/" +:+ n) = Some 0) as Hslash
    by (change ("/" +:+ n) with (String "/" n); simpl; by rewrite Hn).
  rewrite (rfind_app_Some _ dir _ _ Hslash), Nat.add_0_r.
  change (S (String.length dir)) with (String.length (String "/" dir)).
  replace (dir +:+ "/" +:+ n) with ((dir +:+ "/") +:+ n) by apply append_assoc.
  replace (String.length (String "/" dir)) with (String.length (dir +:+ "/"))
    by (rewrite length_append; simpl; lia).
  apply drop_append.
Qed.

(** The stem of an entry [base.ext]: the base, unless the base is empty,
    in which case the entry is a hidden file without suffix and the stem is
    the whole entry. *)
Lemma stem_joinpath dir base ext :
  Str.rfind "/"%char base = None → Str.rfind "/"%char ext = None →
  Str.rfind "."%char ext = None → ext ≠ "" →
  Path.stem (Path.joinpath dir (base +:+ "." +:+ ext))
  = if decide (base = "") then "." +:+ ext else base.
Proof.
  intros Hbase Hext Hdot Hne. unfold Path.stem.
  rewrite name_joinpath
    by (apply rfind_app_None; [done|];
        change ("." +:+ ext) with (String "." ext); simpl; by rewrite Hext).
  assert (Str.rfind "."%char ("." +:+ ext) = Some 0) as Hlast
    by (change ("." +:+ ext) with (String "." ext); simpl; by rewrite Hdot).
  rewrite (rfind_app_Some _ base _ _ Hlast), Nat.add_0_r.
  destruct (decide (base = "")) as [->|Hb]; [done|].
  rewrite bool_decide_eq_true_2 by (destruct base; [done | simpl; lia]).
  rewrite bool_decide_eq_true_2
    by (rewrite length_append; destruct ext; [done | simpl; lia]).
  apply take_append.
Qed.

(** X12: for a job on a video [<dir>/<v>.mp4] and an audio file
    [<dir'>/<a>.wav], where [v] and [a] are not empty and hold no
    separator, the output path is
    [<output_dir>/<v>_<a>_<timestamp>.mp4]; dots inside [v] and [a] are
    kept. *)
Theorem output_name_of_discovered_files (w : World) (args : Args) (k : nat)
    (j : JobSpec) (vdir adir v a : string) :
  jobs (trace (run w args (boot w)).2) !! k = Some j →
  job_video_path j = Path.joinpath vdir (v +:+ ".mp4") →
  job_audio_path j = Path.joinpath adir (a +:+ ".wav") →
  v ≠ "" → a ≠ "" →
  Str.rfind "/"%char v = None → Str.rfind "/"%char a = None →
  job_output_path j
  = Path.joinpath (output_dir args)
      (v +:+ "_" +:+ a +:+ "_" +:+ strftime (now_reading w k) +:+ ".mp4").
Proof.
  intros Hj Hvideo Haudio Hv Ha Hsv Hsa. destruct (jobs_planned w args) as [Hpre _].
  apply (prefix_lookup_Some _ _ _ _ Hj) in Hpre.
  apply planned_lookup in Hpre as (video & seed & audio & ->).
  simpl in *. subst video audio. unfold output_filename.
  change (v +:+ ".mp4") with (v +:+ "." +:+ "mp4").
  change (a +:+ ".wav") with (a +:+ "." +:+ "wav").
  rewrite (stem_joinpath vdir v "mp4"), (stem_joinpath adir a "wav") by done.
  by rewrite !decide_False by done.
Qed.

Lemma output_name_of_discovered_files_witness :
  ∃ j, jobs (trace (main calm plain).2) !! 1 = Some j
       ∧ job_output_path j = "output/lipsync/b_y_20240517_120001.mp4".
Proof.
  eexists. split; [vm_compute; reflexivity|].
  rewrite (output_name_of_discovered_files calm (parse_args plain) 1 _
             "data/Video" "data/Audio/spk_ganyu" "b" "y");
    [vm_compute; reflexivity | vm_compute; reflexivity | reflexivity | reflexivity
    | discriminate | discriminate | reflexivity | reflexivity].
Defined.


(** ** Caps that change nothing, and the negative cap *)

(** X13: a cap of zero, or one that is not below the number of audio files,
    is ignored: the run is, print for print and call for call, the run
    without [--max_combinations]. *)
Theorem idle_cap_changes_nothing (w : World) (args : Args) (c : Z) :
  max_combinations args = Some c →
  c = 0%Z ∨ (Z.of_nat (length (get_audio_files w (audio_dir args))) ≤ c)%Z →
  run w args (boot w) = run w (uncapped args) (boot w).
Proof.
  intros Hc Hidle. unfold run. cbn [uncapped video_dir audio_dir output_dir
    max_combinations random_seed]. rewrite Hc.
  destruct Hidle as [->|Hle]; [reflexivity|].
  destruct (decide (c = 0%Z)) as [->|Hnz]; [reflexivity|].
  assert (truthy (Some c) = true) as ->
    by (simpl; by apply negb_true_iff, Z.eqb_neq).
  cbn [default from_option id andb truthy].
  rewrite Z.min_l by done. rewrite bool_decide_eq_false_2 by lia. reflexivity.
Qed.

Lemma idle_cap_changes_nothing_witness :
  run calm (parse_args (with_cap 5)) (boot calm)
  = run calm (uncapped (parse_args (with_cap 5))) (boot calm).
Proof.
  apply (idle_cap_changes_nothing calm (parse_args (with_cap 5)) 5); [reflexivity|].
  right. vm_compute. discriminate.
Defined.

(** X14: a run with a negative cap [c] that found input has, before the
    [ValueError], already created the output directory, announced [c] as
    the total number of combinations and read the clock for its start
    time. *)
Theorem negative_cap_fails_after_setup (w : World) (args : Args) (c : Z) :
  max_combinations args = Some c → (c < 0)%Z →
  get_video_files w (video_dir args) ≠ [] →
  get_audio_files w (audio_dir args) ≠ [] →
  Mkdir (output_dir args) ∈ trace (run w args (boot w)).2
  ∧ Print (PTotal c) ∈ trace (run w args (boot w)).2
  ∧ last (trace (run w args (boot w)).2) = Some (Print PStrategy)
  ∧ time_calls (run w args (boot w)).2 = 1.
Proof.
  intros Hc Hneg Hv Ha.
  rewrite run_negative by (try done; rewrite Hc; simpl; by apply bool_decide_eq_true).
  cbn [snd trace time_calls]. unfold preamble, job_bound. rewrite Hc.
  assert (truthy (Some c) = true) as ->
    by (simpl; apply negb_true_iff, Z.eqb_neq; lia).
  cbn [default from_option id]. rewrite Z.min_r by lia.
  repeat split; try done.
  - do 3 right. by left.
  - do 5 right. by left.
Qed.

Lemma negative_cap_fails_after_setup_witness :
  Mkdir "output/lipsync" ∈ trace (main calm (with_cap (-2))).2
  ∧ Print (PTotal (-2)) ∈ trace (main calm (with_cap (-2))).2.
Proof.
  destruct (negative_cap_fails_after_setup calm (parse_args (with_cap (-2))) (-2))
    as (H1 & H2 & _).
  - reflexivity.
  - lia.
  - vm_compute. discriminate.
  - vm_compute. discriminate.
  - split; [exact H1 | exact H2].
Defined.


(** ** Which draw chooses which video *)





(** ** Timestamps *)

Lemma zero_padded_S width n acc :
  zero_padded (S width) n acc
  = zero_padded width (n / 10) (String (pretty_N_char (N.of_nat (n mod 10))) acc).
Proof. reflexivity. Qed.

Lemma zero_padded_inj width n m acc acc' :
  n < 10 ^ width → m < 10 ^ width →
  zero_padded width n acc = zero_padded width m acc' → n = m ∧ acc = acc'.
Proof.
  revert n m acc acc'. induction width as [|width IH]; intros n m acc acc' Hn Hm Heq.
  { simpl in *. split; [lia | done]. }
  rewrite !zero_padded_S in Heq. rewrite Nat.pow_succ_r' in Hn, Hm.
  apply IH in Heq as [Hdiv Hacc];
    [|apply Nat.Div0.div_lt_upper_bound; lia..].
  injection Hacc as Hdigit ->. split; [|done].
  pose proof (Nat.mod_upper_bound n 10 ltac:(lia)) as Hn10.
  pose proof (Nat.mod_upper_bound m 10 ltac:(lia)) as Hm10.
  apply pretty_N_char_inj in Hdigit; [|lia..].
  pose proof (Nat.div_mod_eq n 10) as Hn'. pose proof (Nat.div_mod_eq m 10) as Hm'.
  apply Nat2N.inj in Hdigit. change (n mod 10 = m mod 10) in Hdigit.
  change (n / 10 = m / 10) in Hdiv.
  transitivity (10 * (n / 10) + n mod 10); [exact Hn'|].
  rewrite Hdiv, Hdigit. symmetry. exact Hm'.
Qed.

Lemma String_tail_inj a s t : String a s = String a t → s = t.
Proof. by intros [= ->]. Qed.

(** [strftime] loses nothing of a date that fits its columns. *)
Lemma strftime_inj d1 d2 : fits d1 → fits d2 → strftime d1 = strftime d2 → d1 = d2.
Proof.
  intros (Hy1 & Hm1 & Hd1 & Hh1 & Hmi1 & Hs1) (Hy2 & Hm2 & Hd2 & Hh2 & Hmi2 & Hs2).
  unfold strftime. intros Heq.
  apply (zero_padded_inj 4) in Heq as [Hy Heq]; [|done..].
  apply (zero_padded_inj 2) in Heq as [Hm Heq]; [|done..].
  apply (zero_padded_inj 2) in Heq as [Hd Heq]; [|done..].
  apply String_tail_inj in Heq.
  apply (zero_padded_inj 2) in Heq as [Hh Heq]; [|done..].
  apply (zero_padded_inj 2) in Heq as [Hmi Heq]; [|done..].
  apply (zero_padded_inj 2) in Heq as [Hs _]; [|done..].
  destruct d1, d2; simpl in *. by subst.
Qed.

(** X16: two jobs of a run that were planned at different calendar
    seconds, both dates fitting the columns of the format, have different
    output paths. *)
Theorem jobs_of_different_seconds_write_different_files (w : World) (args : Args)
    (i k : nat) (ji jk : JobSpec) :
  jobs (trace (run w args (boot w)).2) !! i = Some ji →
  jobs (trace (run w args (boot w)).2) !! k = Some jk →
  fits (now_reading w i) → fits (now_reading w k) →
  now_reading w i ≠ now_reading w k →
  job_output_path ji ≠ job_output_path jk.
Proof.
  intros Hi Hk Hfi Hfk Hne. destruct (jobs_planned w args) as [Hpre _].
  apply (prefix_lookup_Some _ _ _ _ Hi) in Hpre as Hi'.
  apply (prefix_lookup_Some _ _ _ _ Hk) in Hpre as Hk'.
  apply planned_lookup in Hi' as (vi & si & ai & ->).
  apply planned_lookup in Hk' as (vk & sk & ak & ->).
  simpl. unfold Path.joinpath. intros Heq.
  apply (inj (String.app _)), (inj (String.app _)) in Heq.
  apply output_filename_timestamp in Heq. by apply Hne, strftime_inj.
Qed.

Lemma jobs_of_different_seconds_write_different_files_witness :
  ∃ ji jk,
    jobs (trace (main calm plain).2) !! 0 = Some ji
    ∧ jobs (trace (main calm plain).2) !! 1 = Some jk
    ∧ job_output_path ji ≠ job_output_path jk.
Proof.
  eexists _, _. split; [vm_compute; reflexivity|]. split; [vm_compute; reflexivity|].
  apply (jobs_of_different_seconds_write_different_files calm (parse_args plain) 0 1).
  - vm_compute. reflexivity.
  - vm_compute. reflexivity.
  - unfold fits. cbn [now_reading calm noon year month day hour minute second].
    repeat split; apply Nat.ltb_lt; vm_compute; reflexivity.
  - unfold fits. cbn [now_reading calm noon year month day hour minute second].
    repeat split; apply Nat.ltb_lt; vm_compute; reflexivity.
  - discriminate.
Defined.

(** ** The listing that a run prints *)

Lemma compare_append d x y :
  String.compare (d +:+ x) (d +:+ y) = String.compare x y.
Proof.
  induction d as [|a d IH]; [done|]. rewrite !app_String. simpl.
  unfold Ascii.compare. by rewrite N.compare_refl.
Qed.

Lemma le_append d x y : String.le x y → String.le (d +:+ x) (d +:+ y).
Proof. unfold String.le, String.leb. by rewrite compare_append. Qed.

(** Sorting paths of one directory sorts their entries. *)
Lemma sorted_joinpath dir entries :
  sorted (Path.joinpath dir <$> entries) = Path.joinpath dir <$> sorted entries.
Proof.
  apply (StronglySorted_unique String.le).
  - apply sorted_StronglySorted.
  - apply (StronglySorted_fmap _ String.le String.le); [|apply sorted_StronglySorted].
    intros x y Hxy. unfold Path.joinpath. by do 2 apply le_append.
  - by rewrite !sorted_Permutation.
Qed.

(** X18: when no entry of the directory holds a separator, as the names in
    a directory never do, the names that a run lists after "Found N video
    files" are the entries that end in [.mp4], sorted, and likewise for the
    audio files. *)
Theorem listing_shows_the_sorted_matching_names (w : World) (dir : string)
    (entries : list string) :
  fs w dir = Some (Directory entries) →
  Forall (λ n, Str.rfind "/"%char n = None) entries →
  Path.name <$> get_video_files w dir
  = sorted (filter (λ n, Is_true (Str.endswith n ".mp4")) entries)
  ∧ Path.name <$> get_audio_files w dir
    = sorted (filter (λ n, Is_true (Str.endswith n ".wav")) entries).
Proof.
  intros Hfs Hnames. unfold get_video_files, get_audio_files, path_exists, glob.
  rewrite Hfs. simpl. unfold Path.matches.
  assert (∀ ext, Path.name <$>
            sorted (Path.joinpath dir
                      <$> filter (λ n, Is_true (Str.endswith n ext)) entries)
          = sorted (filter (λ n, Is_true (Str.endswith n ext)) entries)) as Hext.
  { intros ext. rewrite sorted_joinpath, <-list_fmap_compose.
    rewrite <-(list_fmap_id (sorted _)) at 2. apply Forall_fmap_ext.
    rewrite sorted_Permutation. apply Forall_forall.
    intros n [_ Hn]%list_elem_of_filter. simpl. apply name_joinpath.
    by eapply Forall_forall in Hnames. }
  by rewrite !Hext.
Qed.

Lemma listing_shows_the_sorted_matching_names_witness :
  Path.name <$> get_video_files calm "data/Video" = ["a.mp4"; "b.mp4"].
Proof.
  rewrite (proj1 (listing_shows_the_sorted_matching_names calm "data/Video"
                    ["b.mp4"; "notes.txt"; "a.mp4"; "clip.MP4"] eq_refl
                    ltac:(by repeat constructor))).
  vm_compute. reflexivity.
Defined.
